(** * QCStudy: the Gram-matrix routine and the Ising translation

    A shallow embedding of the hand-written pieces of the teaching
    notebooks:

    - [kernel] and [gram] of "Integrating quantum kernels into scikit-learn";
    - the distance matrix [w] and the Ising model ([h], [J]) of the
      clustering notebook.

    The cells of a numpy array, and the numbers a kernel or a norm returns,
    are taken from an arbitrary type [F] (numpy's float64) with a
    distinguished [zero]; no property of floating-point arithmetic is
    used. *)

From stdpp Require Import gmap list fin_maps strings.

(** * Two-dimensional numpy arrays *)

Module Numpy.

(** A C-contiguous array: its shape and its flat buffer, row after row. *)
Record ndarray (F : Type) := Ndarray {
  nrows : nat;
  ncols : nat;
  buf : list F
}.
Arguments Ndarray {F} nrows ncols buf.
Arguments nrows {F} a : rename.
Arguments ncols {F} a : rename.
Arguments buf {F} a : rename.

Section ops.

Context {F : Type}.

(** [np.zeros((n, m))] *)
Definition zeros (zero : F) (n m : nat) : ndarray F :=
  Ndarray n m (replicate (n * m) zero).

(** [a[i, j]], [None] standing for numpy's IndexError.  Indices are the
    non-negative ones that [enumerate] and [range] produce. *)
Definition getitem (a : ndarray F) (i j : nat) : option F :=
  if decide (i < nrows a ∧ j < ncols a) then buf a !! (i * ncols a + j) else None.

(** [a[i, j] = v], in place in the source; [None] for IndexError. *)
Definition setitem (a : ndarray F) (i j : nat) (v : F) : option (ndarray F) :=
  if decide (i < nrows a ∧ j < ncols a)
  then Some (Ndarray (nrows a) (ncols a) (<[i * ncols a + j := v]> (buf a)))
  else None.

(** [a[i]]: the contents of row [i]. *)
Definition row (a : ndarray F) (i : nat) : list F :=
  take (ncols a) (drop (i * ncols a) (buf a)).

(** [a.tolist()] *)
Definition tolist (a : ndarray F) : list (list F) :=
  row a <$> seq 0 (nrows a).

(** The buffer has as many cells as the shape says. *)
Definition wf (a : ndarray F) : Prop := length (buf a) = nrows a * ncols a.

End ops.

End Numpy.

(** * The kernel notebook: Gram matrices *)

Module Gram.
Import Numpy.

Section model.

Context {F : Type}.
Variable zero : F.

(** ** Objects and references *)

Definition loc := positive.

(** A feature vector is seen through its numeric contents. *)
Definition vec := list F.

(** What a name can be bound to here: a reference to a heap object, or the
    row [i] of a two-dimensional array (the view that iterating over the
    array produces; it shares the buffer of its base). *)
Inductive val :=
  | VRef (l : loc)
  | VRow (base : loc) (i : nat).

(** Heap objects: a feature vector, a Python list of references, and a
    two-dimensional numpy array. *)
Inductive obj :=
  | OVec (x : vec)
  | OList (items : list val)
  | ONdarray (arr : ndarray F).

(** What is observed of a run: the calls of the kernel with their two
    arguments, and the stores into arrays. *)
Inductive event :=
  | ECall (x1 x2 : val)
  | EStore (g : loc) (i j : nat) (v : F).

(** The interpreter state: the heap and the events so far, oldest first. *)
Record state := State {
  heap : gmap loc obj;
  trace : list event
}.

Inductive exn := TypeError | IndexError.

Inductive outcome (T : Type) :=
  | Ok (v : T) (s : state)
  | Raise (e : exn)
  | OutOfFuel.
Arguments Ok {T} v s.
Arguments Raise {T} e.
Arguments OutOfFuel {T}.

Definition M (T : Type) := state → outcome T.

Definition ret {T} (v : T) : M T := λ s, Ok v s.

Definition bind {T U} (m : M T) (f : T → M U) : M U :=
  λ s, match m s with
       | Ok v s' => f v s'
       | Raise e => Raise e
       | OutOfFuel => OutOfFuel
       end.

#[export] Instance M_ret : MRet M := @ret.
#[export] Instance M_bind : MBind M := λ T U f m, bind m f.

(** ** Primitives used by [gram] *)

(** The contents the kernel sees behind one of its arguments. *)
Definition deref (h : gmap loc obj) (v : val) : option vec :=
  match v with
  | VRef l =>
      match h !! l with
      | Some (OVec x) => Some x
      | _ => None
      end
  | VRow b i =>
      match h !! b with
      | Some (ONdarray a) => if decide (i < nrows a) then Some (row a i) else None
      | _ => None
      end
  end.

(** [len(a)]: the number of items of a list, of rows of an array. *)
Definition py_len (a : val) : M nat :=
  λ s, match a with
       | VRef l =>
           match heap s !! l with
           | Some (OList items) => Ok (length items) s
           | Some (ONdarray a) => Ok (nrows a) s
           | _ => Raise TypeError
           end
       | VRow _ _ => Raise TypeError
       end.

(** One step of the iterator behind [enumerate(a)]: the item at position
    [idx] if there is one.  The sequence is read again at every step, as
    Python's list and array iterators do. *)
Definition seq_next (a : val) (idx : nat) : M (option val) :=
  λ s, match a with
       | VRef l =>
           match heap s !! l with
           | Some (OList items) => Ok (items !! idx) s
           | Some (ONdarray a) =>
               Ok (if decide (idx < nrows a) then Some (VRow l idx) else None) s
           | _ => Raise TypeError
           end
       | VRow _ _ => Raise TypeError
       end.

(** [np.zeros((n, m))]: a fresh array filled with [zero]. *)
Definition np_zeros (n m : nat) : M loc :=
  λ s, let g := fresh (dom (heap s)) in
       Ok g (State (<[g := ONdarray (zeros zero n m)]> (heap s)) (trace s)).

(** [g[i, j] = v] *)
Definition setitem2 (g : loc) (i j : nat) (v : F) : M unit :=
  λ s, match heap s !! g with
       | Some (ONdarray a) =>
           match setitem a i j v with
           | Some a' =>
               Ok tt (State (<[g := ONdarray a']> (heap s)) (trace s ++ [EStore g i j v]))
           | None => Raise IndexError
           end
       | _ => Raise TypeError
       end.

(** [g[i, j]] *)
Definition getitem2 (g : loc) (i j : nat) : M F :=
  λ s, match heap s !! g with
       | Some (ONdarray a) =>
           match getitem a i j with
           | Some v => Ok v s
           | None => Raise IndexError
           end
       | _ => Raise TypeError
       end.

(** [g.shape] *)
Definition shape (g : loc) : M (nat * nat) :=
  λ s, match heap s !! g with
       | Some (ONdarray a) => Ok (nrows a, ncols a) s
       | _ => Raise TypeError
       end.

(** [for idx, x in enumerate(a): body], from position [idx] on. *)
Fixpoint for_enumerate (fuel : nat) (a : val) (idx : nat)
    (body : nat → val → M unit) : M unit :=
  match fuel with
  | 0 => λ _, OutOfFuel
  | S fuel' =>
      x ← seq_next a idx;
      match x with
      | None => ret tt
      | Some x => body idx x;; for_enumerate fuel' a (S idx) body
      end
  end.

(** ** The notebook's functions *)

Section with_kernel.

(** The function bound to the global name [kernel] when [gram] runs. *)
Variable k : vec → vec → F.

(** [kernel(x1, x2)]: the call is logged and the function applied to the
    contents of the two data points.  A kernel is taken to be a function of
    these contents, with no effect of its own; handing it something that is
    not a feature vector is the TypeError a kernel that computes on its
    arguments ends in (the placeholder below, which ignores them, would
    return all the same). *)
Definition call_kernel (x1 x2 : val) : M F :=
  λ s, match deref (heap s) x1, deref (heap s) x2 with
       | Some v1, Some v2 => Ok (k v1 v2) (State (heap s) (trace s ++ [ECall x1 x2]))
       | _, _ => Raise TypeError
       end.

(** <<
    def gram(A, B):
        gram = np.zeros((len(A), len(B)))
        for id1, x1 in enumerate(A):
            for id2, x2 in enumerate(B):
                gram[id1, id2] = kernel(x1, x2)
        return gram
    >> *)
Definition gram (fuel : nat) (A B : val) : M loc :=
  n ← py_len A;
  m ← py_len B;
  g ← np_zeros n m;
  for_enumerate fuel A 0 (λ id1 x1,
    for_enumerate fuel B 0 (λ id2 x2,
      v ← call_kernel x1 x2;
      setitem2 g id1 id2 v));;
  ret g.

End with_kernel.

(** <<
    def kernel(x1, x2):
        return 0
    >> *)
Definition kernel (x1 x2 : vec) : F := zero.

(** ** Vocabulary of the statements *)

(** The items a sequence object yields when iterated over, in order. *)
Definition seq_items (h : gmap loc obj) (a : val) : option (list val) :=
  match a with
  | VRef l =>
      match h !! l with
      | Some (OList items) => Some items
      | Some (ONdarray a) => Some (VRow l <$> seq 0 (nrows a))
      | _ => None
      end
  | VRow _ _ => None
  end.

(** [a] denotes a finite sequence of feature vectors with these contents. *)
Definition seq_contents (h : gmap loc obj) (a : val) : option (list vec) :=
  items ← seq_items h a; mapM (deref h) items.

(** The matrix of the specification, [M[i][j] = k(A[i], B[j])], as a list
    of rows. *)
Definition spec_gram (k : vec → vec → F) (As Bs : list vec) : list (list F) :=
  (λ a, k a <$> Bs) <$> As.

(** The events of the [id1]-th row from column [id2] on, and of the rows
    from [id1] on. *)
Fixpoint spec_row_trace (k : vec → vec → F) (g : loc) (id1 : nat) (x1 : val)
    (a : vec) (id2 : nat) (Bitems : list val) (Bs : list vec) : list event :=
  match Bitems, Bs with
  | x2 :: Bitems', b :: Bs' =>
      ECall x1 x2 :: EStore g id1 id2 (k a b)
        :: spec_row_trace k g id1 x1 a (S id2) Bitems' Bs'
  | _, _ => []
  end.

Fixpoint spec_trace (k : vec → vec → F) (g : loc) (id1 : nat)
    (Aitems : list val) (As : list vec) (Bitems : list val) (Bs : list vec)
    : list event :=
  match Aitems, As with
  | x1 :: Aitems', a :: As' =>
      spec_row_trace k g id1 x1 a 0 Bitems Bs
        ++ spec_trace k g (S id1) Aitems' As' Bitems Bs
  | _, _ => []
  end.

(** The ordered pairs of items, the first component varying slowest. *)
Definition spec_pairs (xs ys : list val) : list (val * val) :=
  x ← xs; pair x <$> ys.

(** The state while the loops of [gram] run in the heap [h0]: only the
    cells of the array [g] and the trace change. *)
Definition mid (h0 : gmap loc obj) (g : loc) (n m : nat) (cells : list F)
    (tr : list event) : state :=
  State (<[g := ONdarray (Ndarray n m cells)]> h0) tr.

(** The body of the inner loop of [gram]. *)
Definition inner_body (k : vec → vec → F) (g : loc) (id1 : nat) (x1 : val)
    : nat → val → M unit :=
  λ id2 x2, v ← call_kernel k x1 x2; setitem2 g id1 id2 v.

(** The state [gram] leaves behind: one more object, the array, and the
    events of the two loops appended to the trace. *)
Definition gram_post (k : vec → vec → F) (s : state) (Aitems Bitems : list val)
    (As Bs : list vec) : state :=
  let g := fresh (dom (heap s)) in
  State (<[g := ONdarray (Ndarray (length As) (length Bs) (concat (spec_gram k As Bs)))]>
           (heap s))
        (trace s ++ spec_trace k g 0 Aitems As Bitems Bs).

(** What a loop of [gram] can end in: no fuel, a TypeError, or a state in
    which again only the cells of [g] and the trace have changed. *)
Definition loop_ok (h0 : gmap loc obj) (g : loc) (n m : nat) (o : outcome unit) : Prop :=
  o = OutOfFuel ∨ o = Raise TypeError ∨ ∃ cells tr, o = Ok tt (mid h0 g n m cells tr).

(** The array a run returns. *)
Definition result_array (o : outcome loc) : option (ndarray F) :=
  match o with
  | Ok g s =>
      match heap s !! g with
      | Some (ONdarray a) => Some a
      | _ => None
      end
  | _ => None
  end.

(** [o] is [o'] unless the fuel ran out first. *)
Definition fuel_le {T} (o o' : outcome T) : Prop := o = OutOfFuel ∨ o = o'.

(** The events logged between two states. *)
Definition trace_since (s s' : state) : list event :=
  drop (length (trace s)) (trace s').

(** The kernel calls among some events, in order. *)
Definition kernel_calls (tr : list event) : list (val * val) :=
  omap (λ e, match e with ECall x1 x2 => Some (x1, x2) | EStore _ _ _ _ => None end) tr.

(** The arrays written to among some events. *)
Definition stored_arrays (tr : list event) : list loc :=
  omap (λ e, match e with EStore g _ _ _ => Some g | ECall _ _ => None end) tr.

End model.

Arguments Ok {F T} v s.
Arguments Raise {F T} e.
Arguments OutOfFuel {F T}.

End Gram.

(** * The clustering notebook: from distances to an Ising model *)

Module Clustering.
Import Numpy.

Section model.

Context {F : Type}.
Variable zero : F.

(** [np.linalg.norm(x - y)] on two rows of the data, a float64 computed by
    numpy; nothing is assumed of it. *)
Variable norm_diff : list F → list F → F.

(** [n_instances = 4] *)
Definition n_instances : nat := 4.

(** [range(lo, hi)] *)
Definition range (lo hi : nat) : list nat := seq lo (hi - lo).

(** [itertools.product] of two copies of [range(n)]: the pairs [(i, j)],
    the second index varying fastest. *)
Definition product_range (n : nat) : list (nat * nat) :=
  i ← range 0 n; j ← range 0 n; [(i, j)].

(** [data = np.concatenate((class_1, class_2))], as its list of rows. *)
Definition concatenate (class_1 class_2 : list (list F)) : list (list F) :=
  class_1 ++ class_2.

(** <<
    w = np.zeros((n_instances, n_instances))
    for i, j in itertools.product(range(n_instances), range(n_instances)):
        w[i, j] = np.linalg.norm(data[i]-data[j])
    >>
    (the source spells the two ranges as one list repeated twice and
    unpacked).  [None] stands for the IndexError of [data[i]] or of the
    store. *)
Definition compute_w (n : nat) (data : list (list F)) : option (ndarray F) :=
  foldl (λ acc '(i, j),
           w ← acc;
           xi ← data !! i;
           xj ← data !! j;
           setitem w i j (norm_diff xi xj))
        (Some (zeros zero n n)) (product_range n).

(** <<
    J, h = {}, {}
    for i in range(n_instances):
        h[i] = 0
        for j in range(i+1, n_instances):
            J[(i, j)] = w[i, j]
    >>
    The dictionaries are finite maps; the order of insertion, which a
    Python dict also keeps, is not modelled. *)
Definition ising (n : nat) (w : ndarray F)
    : option (gmap nat F * gmap (nat * nat) F) :=
  foldl (λ acc i,
           '(h, J) ← acc;
           let h' := <[i := zero]> h in
           J' ← foldl (λ accJ j,
                         J ← accJ;
                         v ← getitem w i j;
                         Some (<[(i, j) := v]> J))
                      (Some J) (range (i + 1) n);
           Some (h', J'))
        (Some (∅, ∅)) (range 0 n).

(** The arguments of [dimod.BinaryQuadraticModel(h, J, 0.0, dimod.SPIN)];
    what dimod builds from them is outside the repository. *)
Inductive vartype := SPIN | BINARY.

Record bqm := BQM {
  linear : gmap nat F;
  quadratic : gmap (nat * nat) F;
  offset : F;
  vtype : vartype
}.

Definition model (n : nat) (w : ndarray F) : option bqm :=
  '(h, J) ← ising n w; Some (BQM h J zero SPIN).

End model.

End Clustering.

(** * Sample inputs

    The data of the notebook's two demonstration cells, over the integers,
    <<
    data = [[1, 2], [3, 4]]
    data1 = [[1, 2], [3, 4]]
    data2 = [[2, 4]]
    >>
    together with an empty list, a small array standing for [X_train], and
    two kernels to put in the place of the placeholder. *)

Module Samples.
Import Numpy Gram.

Definition data : @val := VRef 3%positive.
Definition data1 : @val := VRef 6%positive.
Definition data2 : @val := VRef 8%positive.
Definition empty : @val := VRef 9%positive.
Definition X_train : @val := VRef 10%positive.

Definition sample_heap : gmap loc (@obj Z) :=
  list_to_map [
    (1%positive, OVec [1; 2]%Z);
    (2%positive, OVec [3; 4]%Z);
    (3%positive, OList [VRef 1%positive; VRef 2%positive]);
    (4%positive, OVec [1; 2]%Z);
    (5%positive, OVec [3; 4]%Z);
    (6%positive, OList [VRef 4%positive; VRef 5%positive]);
    (7%positive, OVec [2; 4]%Z);
    (8%positive, OList [VRef 7%positive]);
    (9%positive, OList []);
    (10%positive, ONdarray (Ndarray 3 2 [5; 1; 4; 9; 6; 2]%Z))
  ].

Definition sample_state : @state Z := State sample_heap [].

(** The inner product, a symmetric kernel. *)
Definition dot (x y : list Z) : Z := foldr Z.add 0%Z (zip_with Z.mul x y).

(** A kernel that is not symmetric. *)
Definition first_minus_last (x y : list Z) : Z :=
  (default 0 (head x) - default 0 (last y))%Z.

(** The contents of [data] (and of [data1]), of [data2] and of [X_train]. *)
Definition data_rows : list (list Z) := [[1; 2]; [3; 4]]%Z.
Definition data2_rows : list (list Z) := [[2; 4]]%Z.
Definition X_train_rows : list (list Z) := [[5; 1]; [4; 9]; [6; 2]]%Z.

(** A state in which something happened already: one more array in the
    heap, two events in the trace. *)
Definition later_state : @state Z :=
  State (<[11%positive := ONdarray (Ndarray 1 1 [9]%Z)]> sample_heap)
        [ECall (VRef 1%positive) (VRef 7%positive); EStore 11%positive 0 0 9%Z].

(** Two classes of two points each, and the sum of the absolute
    differences in the place of numpy's norm. *)
Definition class_1 : list (list Z) := [[0; 0; 0]; [1; 0; 1]]%Z.
Definition class_2 : list (list Z) := [[6; 1; 0]; [7; 2; 1]]%Z.
Definition taxicab (x y : list Z) : Z :=
  foldr Z.add 0%Z (zip_with (λ a b, Z.abs (a - b)) x y).

End Samples.

(** * A list and its two halves

    A list of three data points, the two slices [A[:1]] and [A[1:]] of it
    (Python slices share the items of the list), and a second list. *)

Module Batches.
Import Numpy Gram.

Definition whole : @val := VRef 4%positive.
Definition head_part : @val := VRef 5%positive.
Definition tail_part : @val := VRef 6%positive.
Definition other : @val := VRef 7%positive.

Definition batch_heap : gmap loc (@obj Z) :=
  list_to_map [
    (1%positive, OVec [1; 2]%Z);
    (2%positive, OVec [3; 4]%Z);
    (3%positive, OVec [5; 6]%Z);
    (4%positive, OList [VRef 1%positive; VRef 2%positive; VRef 3%positive]);
    (5%positive, OList [VRef 1%positive]);
    (6%positive, OList [VRef 2%positive; VRef 3%positive]);
    (7%positive, OList [VRef 1%positive; VRef 3%positive])
  ].

Definition batch_state : @state Z := State batch_heap [].

End Batches.

(** * The clustering notebook: the labels of the plot, and index pairs *)

Module ClusteringData.

(** <<
    colors = ["red"] * (n_instances//2) + ["green"] * (n_instances//2)
    >> *)
Definition colors (n : nat) : list string :=
  replicate (n / 2) "red" ++ replicate (n / 2) "green".

(** The pairs [(i, j)] with [i < j < n], listed by their second index. *)
Fixpoint upper_pairs (n : nat) : list (nat * nat) :=
  match n with
  | 0 => []
  | S n' => upper_pairs n' ++ ((λ i, (i, n')) <$> seq 0 n')
  end.

End ClusteringData.

(** * The variational classifier notebook: the circuit and the grid

    The functions [S], [U] and [qclassifier] only queue gates on the
    device; they are run on the queue of operations they append to.  What
    the simulator makes of a queue is outside the repository. *)

Module Variational.
Import Numpy.

Section model.

Context {F : Type}.

(** The gates the notebook uses, with their parameters and wires, and the
    observable it measures. *)
Inductive op :=
  | RX (phi : F) (wire : nat)
  | Rot (phi theta omega : F) (wire : nat)
  | CNOT (control target : nat).

Inductive observable := PauliZ (wire : nat).

Inductive exn := TypeError | IndexError | ValueError.

(** A function called while a QNode is built: it may raise, or return a
    value and the queue with what it applied appended. *)
Definition Q (T : Type) := list op → exn + (T * list op).

Definition ret {T} (v : T) : Q T := λ q, inr (v, q).

Definition bind {T U} (m : Q T) (f : T → Q U) : Q U :=
  λ q, match m q with
       | inr (v, q') => f v q'
       | inl e => inl e
       end.

#[export] Instance Q_ret : MRet Q := @ret.
#[export] Instance Q_bind : MBind Q := λ T U f m, bind m f.

(** [x[i]] for a constant index [i >= 0]; [x] is [None] or a sequence. *)
Definition subscript (x : option (list F)) (i : nat) : Q F :=
  λ q, match x with
       | None => inl TypeError
       | Some xs =>
           match xs !! i with
           | Some v => inr (v, q)
           | None => inl IndexError
           end
       end.

(** A gate constructor called inside a QNode queues the gate. *)
Definition apply_op (o : op) : Q unit := λ q, inr (tt, q ++ [o]).

(** <<
    def S(x):
        qml.RX(x[0], 0)
        qml.RX(x[1], 1)
    >>
    (named [S_x], as in the notebook's text, to leave [S] to the successor
    of a natural number). *)
Definition S_x (x : option (list F)) : Q unit :=
  a ← subscript x 0;
  apply_op (RX a 0);;
  b ← subscript x 1;
  apply_op (RX b 1).

(** <<
    def U(theta):
        qml.Rot(theta[0], theta[1], theta[2], 0)
        qml.Rot(theta[3], theta[4], theta[5], 0)
        qml.CNOT([1, 0])
    >> *)
Definition U (theta : list F) : Q unit :=
  t0 ← subscript (Some theta) 0;
  t1 ← subscript (Some theta) 1;
  t2 ← subscript (Some theta) 2;
  apply_op (Rot t0 t1 t2 0);;
  t3 ← subscript (Some theta) 3;
  t4 ← subscript (Some theta) 4;
  t5 ← subscript (Some theta) 5;
  apply_op (Rot t3 t4 t5 0);;
  apply_op (CNOT 1 0).

(** [for t in l: body(t)] over a sequence that the body does not touch. *)
Fixpoint for_each {T} (l : list T) (body : T → Q unit) : Q unit :=
  match l with
  | [] => ret tt
  | t :: l' => body t;; for_each l' body
  end.

(** <<
    def qclassifier(thetas, x=None):
        S(x)
        for theta in thetas:
            U(theta)
        return qml.expval.PauliZ(0)
    >> *)
Definition qclassifier (thetas : list (list F)) (x : option (list F)) : Q observable :=
  S_x x;;
  for_each thetas U;;
  ret (PauliZ 0).


Definition observable_wires (ob : observable) : list nat :=
  match ob with PauliZ w => [w] end.

(** The gates of one layer, for parameters that are all there. *)
Definition spec_layer (theta : list F) : option (list op) :=
  t0 ← theta !! 0; t1 ← theta !! 1; t2 ← theta !! 2;
  t3 ← theta !! 3; t4 ← theta !! 4; t5 ← theta !! 5;
  Some [Rot t0 t1 t2 0; Rot t3 t4 t5 0; CNOT 1 0].

(** ** The grid of the contour plot *)

(** What the device returns for a queue and an observable: the simulation
    of the circuit, a float64. *)
Variable device : list op → observable → F.

(** A call of the QNode: the function is run on an empty queue and the
    device evaluates what was queued. *)
Definition qnode (thetas : list (list F)) (x : option (list F)) : exn + F :=
  match qclassifier thetas x [] with
  | inr (ob, ops) => inr (device ops ob)
  | inl e => inl e
  end.

(** [np.meshgrid(xs, ys)]: two arrays of shape [(len(ys), len(xs))], the
    first repeating [xs] in every row, the second [ys] down every column. *)
Definition meshgrid (xs ys : list F) : ndarray F * ndarray F :=
  (Ndarray (length ys) (length xs) (concat (replicate (length ys) xs)),
   Ndarray (length ys) (length xs) (concat (replicate (length xs) <$> ys))).

(** [a.flatten()] *)
Definition flatten (a : ndarray F) : list F := buf a.

(** [[f(x) for x in l]], stopping at the first exception. *)
Fixpoint comprehension {A B} (f : A → exn + B) (l : list A) : exn + list B :=
  match l with
  | [] => inr []
  | a :: l' =>
      match f a with
      | inl e => inl e
      | inr b =>
          match comprehension f l' with
          | inl e => inl e
          | inr bs => inr (b :: bs)
          end
      end
  end.

(** [np.reshape(l, (n, m))] of a list of numbers. *)
Definition reshape (l : list F) (shape : nat * nat) : exn + ndarray F :=
  if decide (length l = shape.1 * shape.2)
  then inr (Ndarray shape.1 shape.2 l)
  else inl ValueError.

(** <<
    xx, yy = np.meshgrid(np.linspace(-2.5, 2.5, 20), np.linspace(-2.5, 2.5, 20))
    X_grid = [np.array([x, y]) for x, y in zip(xx.flatten(), yy.flatten())]
    predictions_grid = [qclassifier(thetas, x=x) for x in X_grid]
    Z = np.reshape(predictions_grid, xx.shape)
    >>
    for the two lists of abscissas and ordinates that [np.linspace]
    returns. *)
Definition X_grid (xs ys : list F) : list (list F) :=
  let '(xx, yy) := meshgrid xs ys in
  zip_with (λ x y, [x; y]) (flatten xx) (flatten yy).

Definition decision_grid (thetas : list (list F)) (xs ys : list F) : exn + ndarray F :=
  let '(xx, yy) := meshgrid xs ys in
  match comprehension (λ x, qnode thetas (Some x)) (X_grid xs ys) with
  | inl e => inl e
  | inr predictions_grid => reshape predictions_grid (nrows xx, ncols xx)
  end.

End model.

End Variational.

(** * Sample matrices *)

Module MatrixSamples.
Import Numpy.

(** The distances of the sample classes, and an array with the same
    entries above the diagonal and others elsewhere. *)
Definition w_distances : ndarray Z :=
  Ndarray 4 4 [0; 2; 7; 10;  2; 0; 7; 8;  7; 7; 0; 3;  10; 8; 3; 0]%Z.
Definition w_lopsided : ndarray Z :=
  Ndarray 4 4 [5; 2; 7; 10;  -1; 5; 7; 8;  -2; -3; 5; 3;  -4; -5; -6; 5]%Z.

End MatrixSamples.

(** * Sample circuits and grids *)

Module CircuitSamples.
Import Variational.

(** Parameters of the shape [(num_layers, 6)] with [num_layers = 3], a
    point with two features and one with a third. *)
Definition thetas3 : list (list Z) :=
  [[1; 2; 3; 4; 5; 6]; [7; 8; 9; 10; 11; 12]; [13; 14; 15; 16; 17; 18]]%Z.
Definition point : list Z := [20; 21]%Z.

(** A row of parameters too many, and a row too short. *)
Definition thetas_long : list (list Z) := [[1; 2; 3; 4; 5; 6; 99]]%Z.
Definition thetas_short : list (list Z) := [[1; 2; 3; 4; 5; 6]; [7; 8; 9]]%Z.

(** In the place of the simulator: the sum of the angles of the [RX]
    gates. *)
Definition sum_rx (ops : list (@op Z)) (ob : observable) : Z :=
  foldr (λ o acc, match o with RX phi _ => (phi + acc)%Z | _ => acc end) 0%Z ops.

(** Three abscissas and two ordinates. *)
Definition xs3 : list Z := [-2; 0; 2]%Z.
Definition ys2 : list Z := [-1; 1]%Z.

End CircuitSamples.

(** * Facts about arrays *)

Module NumpySpec.
Import Numpy.

Section facts.

Context {F : Type}.
Implicit Types (a : ndarray F) (rows : list (list F)).

Lemma index_inj m i j i' j' :
  j < m → j' < m → i * m + j = i' * m + j' → i = i' ∧ j = j'.
Proof.
  intros Hj Hj' Heq.
  destruct (decide (i = i')) as [->|Hne]; [lia|].
  exfalso. destruct (decide (i < i')).
  - assert ((i + 1) * m ≤ i' * m) by (apply Nat.mul_le_mono_r; lia). lia.
  - assert ((i' + 1) * m ≤ i * m) by (apply Nat.mul_le_mono_r; lia). lia.
Qed.

Lemma index_lt n m i j : i < n → j < m → i * m + j < n * m.
Proof.
  intros Hi Hj.
  assert ((i + 1) * m ≤ n * m) by (apply Nat.mul_le_mono_r; lia). lia.
Qed.

Lemma zeros_wf (zero : F) n m : wf (zeros zero n m).
Proof. unfold wf, zeros. simpl. by rewrite length_replicate. Qed.

Lemma setitem_Some a i j v :
  i < nrows a → j < ncols a →
  setitem a i j v = Some (Ndarray (nrows a) (ncols a) (<[i * ncols a + j := v]> (buf a))).
Proof. intros Hi Hj. unfold setitem. by rewrite decide_True. Qed.

Lemma setitem_shape a a' i j v :
  setitem a i j v = Some a' →
  nrows a' = nrows a ∧ ncols a' = ncols a ∧ (wf a → wf a').
Proof.
  unfold setitem, wf. case_decide; [|done]. intros [= <-]. simpl.
  by rewrite length_insert.
Qed.

Lemma getitem_setitem a a' i j v i' j' :
  wf a → setitem a i j v = Some a' →
  i' < nrows a → j' < ncols a →
  getitem a' i' j' = if decide (i' = i ∧ j' = j) then Some v else getitem a i' j'.
Proof.
  unfold setitem, getitem, wf. intros Hwf Hset Hi' Hj'.
  case_decide as Hij; [|done]. destruct Hij as [Hi Hj].
  injection Hset as <-. simpl. rewrite !(decide_True (P := _ < _ ∧ _ < _)) by done.
  case_decide as Heq.
  - destruct Heq as [-> ->]. apply list_lookup_insert_eq.
    rewrite Hwf. by apply index_lt.
  - apply list_lookup_insert_ne. intros Hidx.
    destruct (index_inj _ _ _ _ _ Hj Hj' Hidx) as [-> ->]. by apply Heq.
Qed.

Lemma getitem_is_Some a i j :
  wf a → i < nrows a → j < ncols a → is_Some (getitem a i j).
Proof.
  unfold getitem, wf. intros Hwf Hi Hj. rewrite decide_True by done.
  apply lookup_lt_is_Some. rewrite Hwf. by apply index_lt.
Qed.

(** Rows of equal length laid out one after the other. *)
Lemma length_concat_rows m rows :
  Forall (λ r, length r = m) rows → length (concat rows) = length rows * m.
Proof.
  induction 1 as [|r rows Hr _ IH]; [done|].
  simpl. rewrite length_app, IH, Hr. done.
Qed.

Lemma concat_lookup_rows m rows i j r v :
  Forall (λ r, length r = m) rows →
  rows !! i = Some r → r !! j = Some v →
  concat rows !! (i * m + j) = Some v.
Proof.
  intros Hall. revert i. induction Hall as [|r0 rows Hr0 _ IH]; intros i Hi Hj; [done|].
  destruct i as [|i]; simpl in *.
  - injection Hi as ->. by apply lookup_app_l_Some.
  - rewrite lookup_app_r; rewrite Hr0; [|lia].
    replace (m + i * m + j - m) with (i * m + j) by lia. by apply IH.
Qed.

Lemma getitem_concat_rows m rows i j r v :
  Forall (λ r, length r = m) rows →
  rows !! i = Some r → r !! j = Some v →
  getitem (Ndarray (length rows) m (concat rows)) i j = Some v.
Proof.
  intros Hall Hi Hj. unfold getitem. simpl.
  rewrite decide_True.
  - by eapply concat_lookup_rows.
  - split; [by eapply lookup_lt_Some|].
    rewrite Forall_lookup in Hall. rewrite <- (Hall _ _ Hi).
    by eapply lookup_lt_Some.
Qed.

Lemma row_concat_rows m rows i r :
  Forall (λ r, length r = m) rows →
  rows !! i = Some r →
  take m (drop (i * m) (concat rows)) = r.
Proof.
  intros Hall. revert i. induction Hall as [|r0 rows Hr0 _ IH]; intros i Hi; [done|].
  destruct i as [|i]; simpl in *.
  - injection Hi as ->. by rewrite drop_0, take_app_length'.
  - rewrite drop_app_ge; rewrite Hr0; [|lia].
    replace (m + i * m - m) with (i * m) by lia. by apply IH.
Qed.

Lemma tolist_concat_rows m rows :
  Forall (λ r, length r = m) rows →
  tolist (Ndarray (length rows) m (concat rows)) = rows.
Proof.
  intros Hall. unfold tolist, row. simpl.
  apply list_eq. intros i. rewrite list_lookup_fmap.
  destruct (rows !! i) as [r|] eqn:Hi.
  - rewrite lookup_seq_lt by (by eapply lookup_lt_Some). simpl.
    f_equal. by apply row_concat_rows.
  - rewrite lookup_seq_ge; [done|]. apply lookup_ge_None in Hi. lia.
Qed.

End facts.

End NumpySpec.

(** * Properties of [gram] *)

Module GramSpec.
Import Numpy Gram NumpySpec.

Section proofs.

Context {F : Type}.
Variable zero : F.

Implicit Types (h : gmap loc (@obj F)) (s : @state F) (A B : val) (a b : @vec F).
Implicit Types (tr : list (@event F)).

(** ** Running the monad *)

Lemma run_bind {T U} (m : @M F T) (f : T → @M F U) s v s' :
  m s = Ok v s' → (m ≫= f) s = f v s'.
Proof. intros Hm. unfold mbind, M_bind, bind. by rewrite Hm. Qed.

Lemma run_bind_raise {T U} (m : @M F T) (f : T → @M F U) s e :
  m s = Raise e → (m ≫= f) s = Raise e.
Proof. intros Hm. unfold mbind, M_bind, bind. by rewrite Hm. Qed.

Lemma run_bind_fuel {T U} (m : @M F T) (f : T → @M F U) s :
  m s = OutOfFuel → (m ≫= f) s = OutOfFuel.
Proof. intros Hm. unfold mbind, M_bind, bind. by rewrite Hm. Qed.

Lemma bind_raise_inv {T U} (m : @M F T) (f : T → @M F U) s e :
  (m ≫= f) s = Raise e →
  m s = Raise e ∨ ∃ v s', m s = Ok v s' ∧ f v s' = Raise e.
Proof.
  unfold mbind, M_bind, bind. destruct (m s) as [v s'|e'|].
  - intros Hf. right. by exists v, s'.
  - intros [= ->]. by left.
  - done.
Qed.

Lemma drop_cons_inv {T} (l : list T) j (y : T) rest :
  drop j l = y :: rest → l !! j = Some y ∧ drop (S j) l = rest.
Proof.
  intros Hd. split.
  - rewrite <- (Nat.add_0_r j), <- lookup_drop, Hd. done.
  - change (S j) with (1 + j). rewrite Nat.add_comm, <- drop_drop, Hd. done.
Qed.

Lemma drop_nil_inv {T} (l : list T) j : drop j l = [] → l !! j = None.
Proof.
  intros Hd. rewrite <- (Nat.add_0_r j), <- lookup_drop, Hd. done.
Qed.

(** ** Reading sequences in a larger heap *)

Lemma row_views_lookup l n idx :
  (VRow l <$> seq 0 n) !! idx = if decide (idx < n) then Some (VRow l idx) else None.
Proof.
  rewrite list_lookup_fmap. case_decide.
  - by rewrite lookup_seq_lt.
  - rewrite lookup_seq_ge; [done | lia].
Qed.

Lemma seq_next_items h h' A items idx tr :
  seq_items h A = Some items → h ⊆ h' →
  seq_next A idx (State h' tr) = Ok (items !! idx) (State h' tr).
Proof.
  intros Hi Hsub. destruct A as [l|]; [|done]. simpl in *.
  destruct (h !! l) as [o|] eqn:Hl; [|done].
  rewrite (lookup_weaken _ _ _ _ Hl Hsub).
  destruct o; simplify_eq; [done|]. by rewrite row_views_lookup.
Qed.

Lemma py_len_items h A items tr :
  seq_items h A = Some items →
  py_len A (State h tr) = Ok (length items) (State h tr).
Proof.
  intros Hi. destruct A as [l|]; [|done]. simpl in *.
  destruct (h !! l) as [[]|]; simplify_eq; [done|].
  by rewrite length_fmap, length_seq.
Qed.

Lemma deref_weaken h h' v a :
  deref h v = Some a → h ⊆ h' → deref h' v = Some a.
Proof.
  intros Hd Hsub. destruct v as [l|l i]; simpl in *.
  - destruct (h !! l) as [o|] eqn:Hl; [|done].
    by rewrite (lookup_weaken _ _ _ _ Hl Hsub).
  - destruct (h !! l) as [o|] eqn:Hl; [|done].
    by rewrite (lookup_weaken _ _ _ _ Hl Hsub).
Qed.

Lemma seq_items_weaken h h' A items :
  seq_items h A = Some items → h ⊆ h' → seq_items h' A = Some items.
Proof.
  intros Hi Hsub. destruct A as [l|]; [|done]. simpl in *.
  destruct (h !! l) as [o|] eqn:Hl; [|done].
  by rewrite (lookup_weaken _ _ _ _ Hl Hsub).
Qed.

Lemma seq_contents_inv h A As :
  seq_contents h A = Some As →
  ∃ items, seq_items h A = Some items ∧
           Forall2 (λ v a, deref h v = Some a) items As.
Proof.
  unfold seq_contents. intros Hc.
  destruct (seq_items h A) as [items|]; [|done]. simpl in Hc.
  exists items. split; [done|]. by apply mapM_Some_1.
Qed.

Lemma seq_contents_weaken h h' A As :
  seq_contents h A = Some As → h ⊆ h' → seq_contents h' A = Some As.
Proof.
  intros (items & Hi & Hall)%seq_contents_inv Hsub. unfold seq_contents.
  rewrite (seq_items_weaken _ _ _ _ Hi Hsub). simpl.
  apply mapM_Some_2. apply (Forall2_impl _ _ _ _ Hall).
  intros v a Hd. by eapply deref_weaken.
Qed.

(** ** The two loops *)

Section loops.

Variable k : @vec F → @vec F → F.

(** The heap in which [gram] was called, the sequence in its second slot,
    and the array it allocated. *)
Variables (h0 : gmap loc (@obj F)) (B : val) (Bitems : list val) (Bs : list (@vec F)).
Variables (g : loc) (n m : nat).
Hypothesis HB : seq_items h0 B = Some Bitems.
Hypothesis HBs : Forall2 (λ v a, deref h0 v = Some a) Bitems Bs.
Hypothesis Hm : length Bitems = m.
Hypothesis Hg : h0 !! g = None.

Local Abbreviation mid := (mid h0 g n m).
Local Abbreviation inner_body := (inner_body k g).

Lemma mid_sub cells : h0 ⊆ <[g := ONdarray (Ndarray n m cells)]> h0.
Proof. by apply insert_subseteq. Qed.

Lemma inner_body_run i j x1 x2 a b done r tr :
  deref h0 x1 = Some a → deref h0 x2 = Some b →
  i < n → j < m → length done = i * m + j →
  inner_body i x1 j x2 (mid (done ++ zero :: replicate r zero) tr)
  = Ok tt (mid ((done ++ [k a b]) ++ replicate r zero)
               (tr ++ [ECall x1 x2; EStore g i j (k a b)])).
Proof.
  intros Ha Hb Hi Hj Hlen. unfold inner_body.
  erewrite run_bind; last first.
  { unfold call_kernel, mid. simpl.
    rewrite (deref_weaken _ _ _ _ Ha (mid_sub _)).
    rewrite (deref_weaken _ _ _ _ Hb (mid_sub _)). done. }
  unfold setitem2, mid. simpl. rewrite lookup_insert_eq.
  rewrite setitem_Some by done. simpl. rewrite insert_insert_eq.
  rewrite <- Hlen, <- (Nat.add_0_r (length done)), insert_app_r. simpl.
  by rewrite <- !app_assoc.
Qed.

Lemma inner_loop i x1 a restI restC :
  Forall2 (λ v a, deref h0 v = Some a) restI restC →
  deref h0 x1 = Some a → i < n →
  ∀ fuel j done r tr,
    drop j Bitems = restI → length done = i * m + j →
    length restI < fuel →
    for_enumerate fuel B j (inner_body i x1)
      (mid (done ++ replicate (length restI + r) zero) tr)
    = Ok tt (mid ((done ++ (k a <$> restC)) ++ replicate r zero)
                 (tr ++ spec_row_trace k g i x1 a j restI restC)).
Proof.
  intros Hall Ha Hi. induction Hall as [|x2 b restI restC Hb Hall IH];
    intros fuel j done r tr Hdrop Hlen Hfuel.
  - destruct fuel as [|fuel]; [simpl in Hfuel; lia|]. simpl.
    erewrite run_bind by (apply (seq_next_items h0); [done | apply mid_sub]).
    rewrite (drop_nil_inv _ _ Hdrop). by rewrite !app_nil_r.
  - destruct fuel as [|fuel]; [simpl in Hfuel; lia|].
    apply drop_cons_inv in Hdrop as [Hj Hdrop].
    cbn [for_enumerate].
    erewrite run_bind by (apply (seq_next_items h0); [done | apply mid_sub]).
    rewrite Hj.
    erewrite run_bind; last first.
    { cbn [length Nat.add replicate].
      apply inner_body_run; try done.
      apply lookup_lt_Some in Hj. lia. }
    rewrite (IH fuel (S j) (done ++ [k a b]) r); try done.
    + rewrite fmap_cons. cbn [spec_row_trace].
      rewrite <- !(assoc_L (++) done), <- (assoc_L (++) tr). done.
    + rewrite length_app. simpl. lia.
    + simpl in Hfuel. lia.
Qed.

Variables (A : val) (Aitems : list val).
Hypothesis HA : seq_items h0 A = Some Aitems.
Hypothesis Hn : length Aitems = n.

Lemma outer_loop fuelB restI restC :
  Forall2 (λ v a, deref h0 v = Some a) restI restC →
  m < fuelB →
  ∀ fuel i done r tr,
    drop i Aitems = restI → length done = i * m →
    length restI < fuel →
    for_enumerate fuel A i (λ id1 x1, for_enumerate fuelB B 0 (inner_body id1 x1))
      (mid (done ++ replicate (length restI * m + r) zero) tr)
    = Ok tt (mid ((done ++ concat (spec_gram k restC Bs)) ++ replicate r zero)
                 (tr ++ spec_trace k g i restI restC Bitems Bs)).
Proof.
  intros Hall HfuelB. induction Hall as [|x1 a restI restC Ha Hall IH];
    intros fuel i done r tr Hdrop Hlen Hfuel.
  - destruct fuel as [|fuel]; [simpl in Hfuel; lia|]. simpl.
    erewrite run_bind by (apply (seq_next_items h0); [done | apply mid_sub]).
    rewrite (drop_nil_inv _ _ Hdrop). by rewrite !app_nil_r.
  - destruct fuel as [|fuel]; [simpl in Hfuel; lia|].
    apply drop_cons_inv in Hdrop as [Hi Hdrop].
    cbn [for_enumerate].
    erewrite run_bind by (apply (seq_next_items h0); [done | apply mid_sub]).
    rewrite Hi.
    erewrite run_bind; last first.
    { cbn [length Nat.mul]. rewrite <- Nat.add_assoc.
      replace (m + (length restI * m + r))
        with (length Bitems + (length restI * m + r)) by lia.
      apply (inner_loop i x1 a Bitems Bs); try done.
      - apply lookup_lt_Some in Hi. lia.
      - lia.
      - lia. }
    rewrite (IH fuel (S i) (done ++ (k a <$> Bs)) r); try done.
    + cbn [spec_gram spec_trace fmap list_fmap concat].
      rewrite <- !(assoc_L (++) done), <- (assoc_L (++) tr). done.
    + rewrite length_app, length_fmap, <- (Forall2_length _ _ _ HBs). lia.
    + simpl in Hfuel. lia.
Qed.

End loops.

(** ** The run of [gram] on two sequences of feature vectors *)

Lemma gram_run k fuel A B s Aitems Bitems As Bs :
  seq_items (heap s) A = Some Aitems →
  Forall2 (λ v a, deref (heap s) v = Some a) Aitems As →
  seq_items (heap s) B = Some Bitems →
  Forall2 (λ v a, deref (heap s) v = Some a) Bitems Bs →
  length As < fuel → length Bs < fuel →
  gram zero k fuel A B s
  = Ok (fresh (dom (heap s))) (gram_post k s Aitems Bitems As Bs).
Proof.
  intros HA HAs HB HBs HfA HfB. destruct s as [h tr]. simpl in *.
  pose proof (Forall2_length _ _ _ HAs) as HlA.
  pose proof (Forall2_length _ _ _ HBs) as HlB.
  unfold gram.
  erewrite run_bind by (by apply py_len_items).
  erewrite run_bind by (by apply py_len_items).
  erewrite run_bind by (unfold np_zeros; simpl; reflexivity).
  set (g := fresh (dom h)).
  assert (h !! g = None) as Hg by (apply not_elem_of_dom, is_fresh).
  erewrite run_bind; last first.
  { pose proof (outer_loop k h B Bitems Bs g (length Aitems) (length Bitems)
                  HB HBs eq_refl Hg A Aitems HA eq_refl fuel Aitems As HAs
                  ltac:(lia) fuel 0 [] 0 tr eq_refl eq_refl ltac:(lia)) as Hrun.
    rewrite Nat.add_0_r in Hrun. unfold mid in Hrun. simpl in Hrun.
    exact Hrun. }
  unfold gram_post, mid. simpl. rewrite app_nil_r, HlA, HlB. done.
Qed.

Lemma gram_post_fresh_loc s : heap s !! fresh (dom (heap s)) = None.
Proof. apply not_elem_of_dom, is_fresh. Qed.

(** ** Exceptions on arbitrary arguments *)

Section any_input.

Variable k : @vec F → @vec F → F.
Variables (h0 : gmap loc (@obj F)) (g : loc) (n m : nat).
Hypothesis Hg : h0 !! g = None.

Local Abbreviation mid := (mid h0 g n m).
Local Abbreviation loop_ok := (loop_ok h0 g n m).

Lemma inner_body_ok i j x1 x2 cells tr :
  i < n → j < m → loop_ok (inner_body k g i x1 j x2 (mid cells tr)).
Proof.
  intros Hi Hj. unfold inner_body, mbind, M_bind, bind, call_kernel. simpl.
  destruct (deref _ x1) as [a|]; [|by right; left].
  destruct (deref _ x2) as [b|]; [|by right; left].
  unfold setitem2. simpl. rewrite lookup_insert_eq.
  rewrite setitem_Some by done. simpl. rewrite insert_insert_eq.
  right; right. by eexists _, _.
Qed.

Lemma for_enumerate_ok A items (body : nat → val → @M F unit) bound :
  seq_items h0 A = Some items → length items = bound →
  (∀ idx x cells tr, idx < bound → loop_ok (body idx x (mid cells tr))) →
  ∀ fuel idx cells tr, loop_ok (for_enumerate fuel A idx body (mid cells tr)).
Proof.
  intros HA Hlen Hbody fuel. induction fuel as [|fuel IH]; intros idx cells tr;
    [by left|].
  cbn [for_enumerate].
  erewrite run_bind
    by (apply (seq_next_items h0); [done | by apply insert_subseteq]).
  destruct (items !! idx) as [x|] eqn:Hx; [|right; right; by eexists _, _].
  apply lookup_lt_Some in Hx.
  destruct (Hbody idx x cells tr ltac:(lia)) as [Ho|[Ho|(cells' & tr' & Ho)]].
  - left. by apply run_bind_fuel.
  - right; left. by apply run_bind_raise.
  - erewrite run_bind by exact Ho. apply IH.
Qed.

End any_input.

Lemma py_len_inv A s n s' :
  py_len A s = Ok n s' →
  s' = s ∧ ∃ items, seq_items (heap s) A = Some items ∧ length items = n.
Proof.
  destruct A as [l|]; [|done]. simpl.
  destruct (heap s !! l) as [[]|]; intros [= <- <-]; (split; [done|]); eexists;
    (split; [done|]). - done. - by rewrite length_fmap, length_seq.
Qed.

Lemma py_len_raise A s e : py_len A s = Raise e → e = TypeError.
Proof.
  destruct A as [l|]; simpl; [|congruence].
  destruct (heap s !! l) as [[]|]; congruence.
Qed.

Lemma gram_raise k fuel A B s e :
  gram zero k fuel A B s = Raise e → e = TypeError.
Proof.
  unfold gram.
  intros [HlenA|(n & s1 & HlenA & Hrun)]%bind_raise_inv; [by eapply py_len_raise|].
  apply py_len_inv in HlenA as (-> & Aitems & HA & HnA).
  apply bind_raise_inv in Hrun as [HlenB|(m & s1 & HlenB & Hrun)];
    [by eapply py_len_raise|].
  apply py_len_inv in HlenB as (-> & Bitems & HB & HnB).
  apply bind_raise_inv in Hrun as [Hz|(g & s1 & Hz & Hrun)]; [done|].
  unfold np_zeros in Hz. injection Hz as <- <-.
  pose proof (gram_post_fresh_loc s) as Hg.
  apply bind_raise_inv in Hrun as [Hloop|(u & s1 & _ & Hret)]; [|done].
  destruct (for_enumerate_ok (heap s) (fresh (dom (heap s))) n m Hg A Aitems
      (λ id1 x1, for_enumerate fuel B 0 (inner_body k (fresh (dom (heap s))) id1 x1)) n
      HA HnA) with (fuel := fuel) (idx := 0) (cells := replicate (n * m) zero)
      (tr := trace s) as [Ho|[Ho|(cells & tr & Ho)]].
  - intros id1 x1 cells tr Hid1.
    apply (for_enumerate_ok (heap s) _ n m Hg B Bitems _ m HB HnB).
    intros id2 x2 cells' tr' Hid2. by apply inner_body_ok.
  - unfold zeros in Hloop. unfold mid, inner_body in Ho. congruence.
  - unfold zeros in Hloop. unfold mid, inner_body in Ho. congruence.
  - unfold zeros in Hloop. unfold mid, inner_body in Ho. congruence.
Qed.

(** ** The shape of the specification's matrix and of the trace *)

Lemma spec_gram_rows k (As Bs : list (@vec F)) :
  Forall (λ r, length r = length Bs) (spec_gram k As Bs).
Proof.
  unfold spec_gram. apply Forall_fmap, Forall_forall. intros a _. simpl.
  by rewrite length_fmap.
Qed.

Lemma spec_gram_length k (As Bs : list (@vec F)) :
  length (spec_gram k As Bs) = length As.
Proof. unfold spec_gram. by rewrite length_fmap. Qed.

Lemma spec_gram_lookup k (As Bs : list (@vec F)) i a :
  As !! i = Some a → spec_gram k As Bs !! i = Some (k a <$> Bs).
Proof. intros Hi. unfold spec_gram. by rewrite list_lookup_fmap, Hi. Qed.

Lemma spec_row_trace_length k g i x1 a j (Bitems : list val) (Bs : list (@vec F)) :
  length Bitems = length Bs →
  length (spec_row_trace k g i x1 a j Bitems Bs) = 2 * length Bitems.
Proof.
  revert j Bs. induction Bitems as [|x2 Bitems IH]; intros j [|b Bs] Hlen;
    simplify_eq/=; [done|].
  rewrite (IH (S j) Bs) by done. lia.
Qed.

Lemma spec_row_trace_lookup k g i x1 a j (Bitems : list val) (Bs : list (@vec F)) j' x2 b :
  Bitems !! j' = Some x2 → Bs !! j' = Some b →
  spec_row_trace k g i x1 a j Bitems Bs !! (2 * j') = Some (ECall x1 x2) ∧
  spec_row_trace k g i x1 a j Bitems Bs !! (2 * j' + 1)
    = Some (EStore g i (j + j') (k a b)).
Proof.
  revert j j' Bs. induction Bitems as [|y Bitems IH]; intros j j' [|c Bs] Hx Hb;
    [done..|].
  cbn [spec_row_trace]. destruct j' as [|j'].
  - injection Hx as ->. injection Hb as ->. rewrite Nat.add_0_r. done.
  - replace (2 * S j') with (S (S (2 * j'))) by lia.
    replace (j + S j') with (S j + j') by lia.
    apply (IH (S j) j' Bs); done.
Qed.

Lemma spec_trace_lookup k g i (Aitems Bitems : list val) (As Bs : list (@vec F))
    i' j x1 x2 a b :
  length Bitems = length Bs →
  Aitems !! i' = Some x1 → As !! i' = Some a →
  Bitems !! j = Some x2 → Bs !! j = Some b →
  spec_trace k g i Aitems As Bitems Bs !! (2 * (i' * length Bs + j))
    = Some (ECall x1 x2) ∧
  spec_trace k g i Aitems As Bitems Bs !! (2 * (i' * length Bs + j) + 1)
    = Some (EStore g (i + i') j (k a b)).
Proof.
  intros Hlen. revert i i' As.
  induction Aitems as [|y Aitems IH]; intros i i' [|c As] Hx1 Ha Hx2 Hb;
    [done..|].
  pose proof (spec_row_trace_length k g i y c 0 Bitems Bs Hlen) as Hrow.
  pose proof (lookup_lt_Some _ _ _ Hx2) as Hj.
  cbn [spec_trace]. destruct i' as [|i'].
  - injection Hx1 as ->. injection Ha as ->.
    rewrite !lookup_app_l by lia. rewrite Nat.add_0_r, Nat.mul_0_l, Nat.add_0_l.
    apply (spec_row_trace_lookup k g i x1 a 0 Bitems Bs j x2 b); done.
  - rewrite !lookup_app_r by lia. rewrite Hrow, Hlen.
    replace (2 * (S i' * length Bs + j) - 2 * length Bs)
      with (2 * (i' * length Bs + j)) by lia.
    replace (2 * (S i' * length Bs + j) + 1 - 2 * length Bs)
      with (2 * (i' * length Bs + j) + 1) by lia.
    replace (i + S i') with (S i + i') by lia.
    apply (IH (S i) i' As); done.
Qed.

Lemma kernel_calls_app tr1 tr2 :
  kernel_calls (tr1 ++ tr2) = kernel_calls tr1 ++ kernel_calls tr2.
Proof. unfold kernel_calls. apply omap_app. Qed.

Lemma stored_arrays_app tr1 tr2 :
  stored_arrays (tr1 ++ tr2) = stored_arrays tr1 ++ stored_arrays tr2.
Proof. unfold stored_arrays. apply omap_app. Qed.

Lemma kernel_calls_row k g i x1 a j (Bitems : list val) (Bs : list (@vec F)) :
  length Bitems = length Bs →
  kernel_calls (spec_row_trace k g i x1 a j Bitems Bs) = pair x1 <$> Bitems.
Proof.
  revert j Bs. induction Bitems as [|x2 Bitems IH]; intros j [|b Bs] Hlen;
    simplify_eq/=; [done|].
  f_equal. by apply IH.
Qed.

Lemma kernel_calls_spec_trace k g i (Aitems Bitems : list val) (As Bs : list (@vec F)) :
  length Aitems = length As → length Bitems = length Bs →
  kernel_calls (spec_trace k g i Aitems As Bitems Bs) = spec_pairs Aitems Bitems.
Proof.
  intros HlA HlB. revert i As HlA.
  induction Aitems as [|x1 Aitems IH]; intros i [|a As] HlA; simplify_eq/=; [done|].
  rewrite kernel_calls_app, kernel_calls_row by done.
  change (spec_pairs (x1 :: Aitems) Bitems)
    with ((pair x1 <$> Bitems) ++ spec_pairs Aitems Bitems).
  f_equal. by apply IH.
Qed.

Lemma stored_arrays_row k g i x1 a j (Bitems : list val) (Bs : list (@vec F)) :
  Forall (λ l, l = g) (stored_arrays (spec_row_trace k g i x1 a j Bitems Bs)).
Proof.
  revert j Bs. induction Bitems as [|x2 Bitems IH]; intros j [|b Bs];
    cbn [spec_row_trace]; [by constructor..|].
  unfold stored_arrays. cbn [omap list_omap]. constructor; [done|]. apply IH.
Qed.

Lemma stored_arrays_spec_trace k g i (Aitems Bitems : list val) (As Bs : list (@vec F)) :
  Forall (λ l, l = g) (stored_arrays (spec_trace k g i Aitems As Bitems Bs)).
Proof.
  revert i As. induction Aitems as [|x1 Aitems IH]; intros i [|a As];
    cbn [spec_trace]; [by constructor..|].
  rewrite stored_arrays_app. apply Forall_app. split; [apply stored_arrays_row | apply IH].
Qed.

Lemma spec_pairs_length (xs ys : list val) :
  length (spec_pairs xs ys) = length xs * length ys.
Proof.
  unfold spec_pairs. induction xs as [|x xs IH]; [done|].
  rewrite bind_cons, length_app, length_fmap, IH. simpl. done.
Qed.

Lemma spec_pairs_lookup (xs ys : list val) i j x y :
  xs !! i = Some x → ys !! j = Some y →
  spec_pairs xs ys !! (i * length ys + j) = Some (x, y).
Proof.
  unfold spec_pairs. revert i. induction xs as [|x0 xs IH]; intros i Hx Hy; [done|].
  rewrite bind_cons. destruct i as [|i]; simplify_eq/=.
  - rewrite lookup_app_l by (rewrite length_fmap; by eapply lookup_lt_Some).
    by rewrite list_lookup_fmap, Hy.
  - rewrite lookup_app_r; rewrite length_fmap; [|lia].
    replace (length ys + i * length ys + j - length ys) with (i * length ys + j) by lia.
    by apply IH.
Qed.

Lemma trace_since_app s h tr :
  trace_since s (State h (trace s ++ tr)) = tr.
Proof. unfold trace_since. simpl. by rewrite drop_app_length. Qed.

(** ** More fuel changes nothing once there is enough *)

Lemma fuel_le_bind {T U} (m m' : @M F T) (f f' : T → @M F U) s :
  fuel_le (m s) (m' s) → (∀ v s1, fuel_le (f v s1) (f' v s1)) →
  fuel_le ((m ≫= f) s) ((m' ≫= f') s).
Proof.
  intros [Hm|Hm] Hf; unfold mbind, M_bind, bind; rewrite Hm; [by left|].
  destruct (m' s); [apply Hf | by right | by right].
Qed.

Lemma fuel_le_refl {T} (o : @outcome F T) : fuel_le o o.
Proof. by right. Qed.

Lemma for_enumerate_mono fuel fuel' A idx (body body' : nat → val → @M F unit) s :
  fuel ≤ fuel' → (∀ i x s1, fuel_le (body i x s1) (body' i x s1)) →
  fuel_le (for_enumerate fuel A idx body s) (for_enumerate fuel' A idx body' s).
Proof.
  intros Hle Hbody. revert fuel' idx s Hle.
  induction fuel as [|fuel IH]; intros fuel' idx s Hle; [by left|].
  destruct fuel' as [|fuel']; [lia|]. cbn [for_enumerate].
  apply fuel_le_bind; [apply fuel_le_refl|]. intros [x|] s1; [|apply fuel_le_refl].
  apply fuel_le_bind; [apply Hbody|]. intros _ s2. apply IH. lia.
Qed.

Lemma gram_mono k fuel fuel' A B s :
  fuel ≤ fuel' →
  fuel_le (gram zero k fuel A B s) (gram zero k fuel' A B s).
Proof.
  intros Hle. unfold gram.
  apply fuel_le_bind; [apply fuel_le_refl|]. intros n s1.
  apply fuel_le_bind; [apply fuel_le_refl|]. intros m s2.
  apply fuel_le_bind; [apply fuel_le_refl|]. intros g s3.
  apply fuel_le_bind; [|intros; apply fuel_le_refl].
  apply for_enumerate_mono; [done|]. intros i x s4.
  apply for_enumerate_mono; [done|]. intros; apply fuel_le_refl.
Qed.

(** ** What [gram] returns *)

Lemma gram_ok k fuel A B s As Bs :
  seq_contents (heap s) A = Some As → seq_contents (heap s) B = Some Bs →
  length As < fuel → length Bs < fuel →
  ∃ Aitems Bitems,
    seq_items (heap s) A = Some Aitems ∧ seq_items (heap s) B = Some Bitems ∧
    length Aitems = length As ∧ length Bitems = length Bs ∧
    gram zero k fuel A B s
    = Ok (fresh (dom (heap s))) (gram_post k s Aitems Bitems As Bs).
Proof.
  intros (Aitems & HA & HAs)%seq_contents_inv (Bitems & HB & HBs)%seq_contents_inv HfA HfB.
  exists Aitems, Bitems. repeat split; try done.
  - by eapply Forall2_length.
  - by eapply Forall2_length.
  - by apply gram_run.
Qed.

Lemma gram_post_array k s Aitems Bitems As Bs :
  heap (gram_post k s Aitems Bitems As Bs) !! fresh (dom (heap s))
  = Some (ONdarray (Ndarray (length As) (length Bs) (concat (spec_gram k As Bs)))).
Proof. unfold gram_post. simpl. apply lookup_insert_eq. Qed.

Lemma gram_post_sub k s Aitems Bitems As Bs :
  heap s ⊆ heap (gram_post k s Aitems Bitems As Bs).
Proof. unfold gram_post. simpl. apply insert_subseteq, gram_post_fresh_loc. Qed.

Lemma gram_post_shape k s Aitems Bitems As Bs :
  shape (fresh (dom (heap s))) (gram_post k s Aitems Bitems As Bs)
  = Ok (length As, length Bs) (gram_post k s Aitems Bitems As Bs).
Proof. unfold shape. by rewrite gram_post_array. Qed.

Lemma gram_post_getitem k s Aitems Bitems As Bs i j a b :
  As !! i = Some a → Bs !! j = Some b →
  getitem2 (fresh (dom (heap s))) i j (gram_post k s Aitems Bitems As Bs)
  = Ok (k a b) (gram_post k s Aitems Bitems As Bs).
Proof.
  intros Hi Hj. unfold getitem2. rewrite gram_post_array.
  rewrite <- (spec_gram_length k As Bs) at 1.
  erewrite getitem_concat_rows; [done | apply spec_gram_rows | |].
  - by apply spec_gram_lookup.
  - by rewrite list_lookup_fmap, Hj.
Qed.

(** C1: on two sequences of feature vectors [gram] returns an array of
    shape [(|A|, |B|)] whose entry at row [i] and column [j] is
    [kernel(A[i], B[j])]. *)
Theorem gram_entries k fuel A B s As Bs :
  seq_contents (heap s) A = Some As → seq_contents (heap s) B = Some Bs →
  length As < fuel → length Bs < fuel →
  ∃ g s',
    gram zero k fuel A B s = Ok g s' ∧
    shape g s' = Ok (length As, length Bs) s' ∧
    ∀ i j a b, As !! i = Some a → Bs !! j = Some b →
      getitem2 g i j s' = Ok (k a b) s'.
Proof.
  intros HA HB HfA HfB.
  destruct (gram_ok k fuel A B s As Bs HA HB HfA HfB)
    as (Aitems & Bitems & _ & _ & _ & _ & Hrun).
  eexists _, _. split; [exact Hrun|]. split; [apply gram_post_shape|].
  intros i j a b Hi Hj. by apply gram_post_getitem.
Qed.

(** C2: with a symmetric kernel, one sequence in both slots gives a square
    array equal to its transpose; two sequences of different lengths give
    an array with different numbers of rows and columns. *)
Theorem gram_symmetric k fuel A s As :
  (∀ x y, k x y = k y x) →
  seq_contents (heap s) A = Some As → length As < fuel →
  (∃ g s',
     gram zero k fuel A A s = Ok g s' ∧
     shape g s' = Ok (length As, length As) s' ∧
     ∀ i j, i < length As → j < length As →
       ∃ v, getitem2 g i j s' = Ok v s' ∧ getitem2 g j i s' = Ok v s') ∧
  (∀ B Bs,
     seq_contents (heap s) B = Some Bs → length Bs < fuel →
     length As ≠ length Bs →
     ∃ g s' n m,
       gram zero k fuel A B s = Ok g s' ∧ shape g s' = Ok (n, m) s' ∧
       n = length As ∧ m = length Bs ∧ n ≠ m).
Proof.
  intros Hsym HA HfA. split.
  - destruct (gram_ok k fuel A A s As As HA HA HfA HfA)
      as (Aitems & Aitems' & _ & _ & _ & _ & Hrun).
    eexists _, _. split; [exact Hrun|]. split; [apply gram_post_shape|].
    intros i j Hi Hj.
    destruct (lookup_lt_is_Some_2 As i Hi) as [a Ha].
    destruct (lookup_lt_is_Some_2 As j Hj) as [b Hb].
    exists (k a b). split.
    + by apply gram_post_getitem.
    + rewrite (Hsym a b). by apply gram_post_getitem.
  - intros B Bs HB HfB Hne.
    destruct (gram_ok k fuel A B s As Bs HA HB HfA HfB)
      as (Aitems & Bitems & _ & _ & _ & _ & Hrun).
    eexists _, _, _, _. split; [exact Hrun|]. split; [apply gram_post_shape|done].
Qed.

(** C3: whatever function [k] is put in the place of the kernel, the array
    [gram] builds with it is the matrix of the pairwise evaluations
    [M[i][j] = k(A[i], B[j])]. *)
Theorem gram_generic (k : @vec F → @vec F → F) fuel A B s As Bs :
  seq_contents (heap s) A = Some As → seq_contents (heap s) B = Some Bs →
  length As < fuel → length Bs < fuel →
  ∃ g s' arr,
    gram zero k fuel A B s = Ok g s' ∧
    heap s' !! g = Some (ONdarray arr) ∧
    nrows arr = length As ∧ ncols arr = length Bs ∧
    tolist arr = spec_gram k As Bs.
Proof.
  intros HA HB HfA HfB.
  destruct (gram_ok k fuel A B s As Bs HA HB HfA HfB)
    as (Aitems & Bitems & _ & _ & _ & _ & Hrun).
  eexists _, _, _. split; [exact Hrun|]. split; [apply gram_post_array|].
  split; [done|]. split; [done|].
  rewrite <- (spec_gram_length k As Bs) at 1.
  apply tolist_concat_rows, spec_gram_rows.
Qed.

(** C4: on two sequences of feature vectors, empty ones included, [gram]
    returns an array of shape [(|A|, |B|)]; when it raises, the exception
    is a TypeError and one of the arguments is not such a sequence. *)
Theorem gram_total k A B s :
  (∀ fuel As Bs,
     seq_contents (heap s) A = Some As → seq_contents (heap s) B = Some Bs →
     length As < fuel → length Bs < fuel →
     ∃ g s', gram zero k fuel A B s = Ok g s' ∧
             shape g s' = Ok (length As, length Bs) s') ∧
  (∀ fuel e,
     gram zero k fuel A B s = Raise e →
     e = TypeError ∧
     (seq_contents (heap s) A = None ∨ seq_contents (heap s) B = None)).
Proof.
  split.
  - intros fuel As Bs HA HB HfA HfB.
    destruct (gram_ok k fuel A B s As Bs HA HB HfA HfB)
      as (Aitems & Bitems & _ & _ & _ & _ & Hrun).
    eexists _, _. split; [exact Hrun|]. apply gram_post_shape.
  - intros fuel e Hraise. split; [by eapply gram_raise|].
    destruct (seq_contents (heap s) A) as [As|] eqn:HA; [|by left].
    destruct (seq_contents (heap s) B) as [Bs|] eqn:HB; [|by right].
    exfalso.
    set (big := S (fuel `max` (length As `max` length Bs))).
    destruct (gram_ok k big A B s As Bs HA HB ltac:(lia) ltac:(lia))
      as (Aitems' & Bitems' & _ & _ & _ & _ & Hbig).
    destruct (gram_mono k fuel big A B s ltac:(lia)) as [Hout|Heq].
    + by rewrite Hraise in Hout.
    + by rewrite Hraise, Hbig in Heq.
Qed.

(** C5: [gram] terminates and calls the kernel [|A| * |B|] times, the call
    number [i * |B| + j] being the one on the pair [(A[i], B[j])]. *)
Theorem gram_kernel_calls k fuel A B s As Bs Aitems Bitems :
  seq_contents (heap s) A = Some As → seq_contents (heap s) B = Some Bs →
  seq_items (heap s) A = Some Aitems → seq_items (heap s) B = Some Bitems →
  length As < fuel → length Bs < fuel →
  ∃ g s',
    gram zero k fuel A B s = Ok g s' ∧
    length (kernel_calls (trace_since s s')) = length As * length Bs ∧
    ∀ i j x1 x2, Aitems !! i = Some x1 → Bitems !! j = Some x2 →
      kernel_calls (trace_since s s') !! (i * length Bs + j) = Some (x1, x2).
Proof.
  intros HA HB HAi HBi HfA HfB.
  destruct (gram_ok k fuel A B s As Bs HA HB HfA HfB)
    as (Aitems' & Bitems' & HAi' & HBi' & HlA & HlB & Hrun).
  simplify_eq.
  eexists _, _. split; [exact Hrun|].
  unfold gram_post. rewrite trace_since_app.
  rewrite kernel_calls_spec_trace by done. split.
  - by rewrite spec_pairs_length, HlA, HlB.
  - intros i j x1 x2 Hi Hj. rewrite <- HlB. by apply spec_pairs_lookup.
Qed.

(** C6: the evaluations come in row-major order: the pair [(i, j)] is
    evaluated, and its value stored at [(i, j)], at the positions
    [2 * (i * |B| + j)] and the next of the trace, and these positions grow
    with [i] first and [j] second. *)
Theorem gram_row_major k fuel A B s As Bs Aitems Bitems :
  seq_contents (heap s) A = Some As → seq_contents (heap s) B = Some Bs →
  seq_items (heap s) A = Some Aitems → seq_items (heap s) B = Some Bitems →
  length As < fuel → length Bs < fuel →
  ∃ g s',
    gram zero k fuel A B s = Ok g s' ∧
    (∀ i j x1 x2 a b,
       Aitems !! i = Some x1 → Bitems !! j = Some x2 →
       As !! i = Some a → Bs !! j = Some b →
       trace_since s s' !! (2 * (i * length Bs + j)) = Some (ECall x1 x2) ∧
       trace_since s s' !! (2 * (i * length Bs + j) + 1)
         = Some (EStore g i j (k a b))) ∧
    (∀ i j i' j', j < length Bs → j' < length Bs →
       i < i' ∨ (i = i' ∧ j < j') →
       2 * (i * length Bs + j) < 2 * (i' * length Bs + j')).
Proof.
  intros HA HB HAi HBi HfA HfB.
  destruct (gram_ok k fuel A B s As Bs HA HB HfA HfB)
    as (Aitems' & Bitems' & HAi' & HBi' & HlA & HlB & Hrun).
  simplify_eq.
  eexists _, _. split; [exact Hrun|]. split.
  - intros i j x1 x2 a b Hx1 Hx2 Ha Hb.
    unfold gram_post. rewrite trace_since_app.
    by apply (spec_trace_lookup k _ 0 Aitems Bitems As Bs i j x1 x2 a b).
  - intros i j i' j' Hj Hj' [Hlt|[-> Hlt]]; [|lia].
    assert ((i + 1) * length Bs ≤ i' * length Bs)
      by (apply Nat.mul_le_mono_r; lia).
    lia.
Qed.

(** C7: the array [gram] returns depends on the contents of its two
    arguments only: two runs, in any two states, on sequences with equal
    contents return arrays with the same shape and cells, whatever else the
    heaps hold and whatever was done before. *)
Theorem gram_deterministic k fuel1 fuel2 A1 B1 A2 B2 s1 s2 As Bs :
  seq_contents (heap s1) A1 = Some As → seq_contents (heap s1) B1 = Some Bs →
  seq_contents (heap s2) A2 = Some As → seq_contents (heap s2) B2 = Some Bs →
  length As < fuel1 → length Bs < fuel1 →
  length As < fuel2 → length Bs < fuel2 →
  ∃ g1 s1' g2 s2' arr,
    gram zero k fuel1 A1 B1 s1 = Ok g1 s1' ∧
    gram zero k fuel2 A2 B2 s2 = Ok g2 s2' ∧
    heap s1' !! g1 = Some (ONdarray arr) ∧
    heap s2' !! g2 = Some (ONdarray arr).
Proof.
  intros HA1 HB1 HA2 HB2 HfA1 HfB1 HfA2 HfB2.
  destruct (gram_ok k fuel1 A1 B1 s1 As Bs HA1 HB1 HfA1 HfB1)
    as (Aitems1 & Bitems1 & _ & _ & _ & _ & Hrun1).
  destruct (gram_ok k fuel2 A2 B2 s2 As Bs HA2 HB2 HfA2 HfB2)
    as (Aitems2 & Bitems2 & _ & _ & _ & _ & Hrun2).
  eexists _, _, _, _, _. split; [exact Hrun1|]. split; [exact Hrun2|].
  split; apply gram_post_array.
Qed.

(** C8: [gram] leaves every object of the heap it was called in as it was,
    its two arguments and their feature vectors among them; the array it
    returns is a new object, and the only one stored into. *)
Theorem gram_frame k fuel A B s As Bs :
  seq_contents (heap s) A = Some As → seq_contents (heap s) B = Some Bs →
  length As < fuel → length Bs < fuel →
  ∃ g s',
    gram zero k fuel A B s = Ok g s' ∧
    heap s !! g = None ∧
    (∀ l, l ≠ g → heap s' !! l = heap s !! l) ∧
    seq_items (heap s') A = seq_items (heap s) A ∧
    seq_items (heap s') B = seq_items (heap s) B ∧
    seq_contents (heap s') A = Some As ∧
    seq_contents (heap s') B = Some Bs ∧
    Forall (λ l, l = g) (stored_arrays (trace_since s s')).
Proof.
  intros HA HB HfA HfB.
  destruct (gram_ok k fuel A B s As Bs HA HB HfA HfB)
    as (Aitems & Bitems & HAi & HBi & _ & _ & Hrun).
  pose proof (gram_post_sub k s Aitems Bitems As Bs) as Hsub.
  eexists _, _. split; [exact Hrun|].
  split; [apply gram_post_fresh_loc|].
  split; [intros l Hl; unfold gram_post; simpl; by rewrite lookup_insert_ne|].
  split; [by rewrite HAi; apply (seq_items_weaken (heap s))|].
  split; [by rewrite HBi; apply (seq_items_weaken (heap s))|].
  split; [by apply (seq_contents_weaken (heap s))|].
  split; [by apply (seq_contents_weaken (heap s))|].
  unfold gram_post. rewrite trace_since_app. apply stored_arrays_spec_trace.
Qed.

Lemma spec_gram_kernel (As Bs : list (@vec F)) :
  concat (spec_gram (kernel zero) As Bs) = replicate (length As * length Bs) zero.
Proof.
  unfold spec_gram, kernel. induction As as [|a As IH]; [done|].
  cbn [fmap list_fmap concat length Nat.mul]. rewrite replicate_add, IH.
  f_equal. clear. induction Bs as [|b Bs IH]; [done|]. simpl. by f_equal.
Qed.

(** C9: with the placeholder kernel the array [gram] returns holds [zero]
    in every cell; so do the two arrays of the notebook,
    [gram_train = gram(X_train, X_train)] and then
    [gram_test = gram(X_test, X_train)]. *)
Theorem gram_placeholder fuel X_test X_train s Te Tr :
  seq_contents (heap s) X_test = Some Te →
  seq_contents (heap s) X_train = Some Tr →
  length Te < fuel → length Tr < fuel →
  (∀ x1 x2, kernel zero x1 x2 = zero) ∧
  (∃ g s',
     gram zero (kernel zero) fuel X_test X_train s = Ok g s' ∧
     heap s' !! g = Some (ONdarray (zeros zero (length Te) (length Tr))) ∧
     ∀ i j, i < length Te → j < length Tr → getitem2 g i j s' = Ok zero s') ∧
  (∃ gram_train s1 gram_test s2,
     gram zero (kernel zero) fuel X_train X_train s = Ok gram_train s1 ∧
     gram zero (kernel zero) fuel X_test X_train s1 = Ok gram_test s2 ∧
     heap s2 !! gram_train = Some (ONdarray (zeros zero (length Tr) (length Tr))) ∧
     heap s2 !! gram_test = Some (ONdarray (zeros zero (length Te) (length Tr)))).
Proof.
  intros HTe HTr HfTe HfTr. split; [done|]. split.
  - destruct (gram_ok (kernel zero) fuel X_test X_train s Te Tr HTe HTr HfTe HfTr)
      as (Aitems & Bitems & _ & _ & _ & _ & Hrun).
    eexists _, _. split; [exact Hrun|].
    split; [by rewrite gram_post_array, spec_gram_kernel|].
    intros i j Hi Hj.
    destruct (lookup_lt_is_Some_2 Te i Hi) as [a Ha].
    destruct (lookup_lt_is_Some_2 Tr j Hj) as [b Hb].
    by apply (gram_post_getitem (kernel zero) s Aitems Bitems Te Tr i j a b).
  - destruct (gram_ok (kernel zero) fuel X_train X_train s Tr Tr HTr HTr HfTr HfTr)
      as (Aitems & Bitems & _ & _ & _ & _ & Hrun1).
    set (s1 := gram_post (kernel zero) s Aitems Bitems Tr Tr) in *.
    pose proof (gram_post_sub (kernel zero) s Aitems Bitems Tr Tr) as Hsub.
    pose proof (seq_contents_weaken _ _ _ _ HTe Hsub) as HTe1.
    pose proof (seq_contents_weaken _ _ _ _ HTr Hsub) as HTr1.
    destruct (gram_ok (kernel zero) fuel X_test X_train s1 Te Tr HTe1 HTr1 HfTe HfTr)
      as (Aitems2 & Bitems2 & _ & _ & _ & _ & Hrun2).
    eexists _, _, _, _. split; [exact Hrun1|]. split; [exact Hrun2|]. split.
    + pose proof (gram_post_sub (kernel zero) s1 Aitems2 Bitems2 Te Tr) as Hsub2.
      eapply lookup_weaken; [|exact Hsub2].
      unfold s1. by rewrite gram_post_array, spec_gram_kernel.
    + by rewrite gram_post_array, spec_gram_kernel.
Qed.

End proofs.

(** ** The statements on the sample inputs *)

Import Samples.

(** The two demonstration cells, [gram(data, data)] and
    [gram(data1, data2)], with the placeholder; then a kernel that computes
    something, on an array and a list; then too little fuel. *)
Example gram_data_data :
  result_array (gram 0%Z (kernel 0%Z) 3 data data sample_state)
  = Some (Ndarray 2 2 [0; 0; 0; 0]%Z).
Proof. reflexivity. Qed.

Example gram_data1_data2 :
  result_array (gram 0%Z (kernel 0%Z) 3 data1 data2 sample_state)
  = Some (Ndarray 2 1 [0; 0]%Z).
Proof. reflexivity. Qed.

Example gram_dot_X_train_data :
  tolist <$> result_array (gram 0%Z dot 4 X_train data sample_state)
  = Some [[7; 19]; [22; 48]; [10; 26]]%Z.
Proof. reflexivity. Qed.

Example gram_calls_data1_data2 :
  match gram 0%Z dot 3 data1 data2 sample_state with
  | Ok g s' => Some (trace s')
  | _ => None
  end
  = Some [ECall (VRef 4%positive) (VRef 7%positive); EStore 11%positive 0 0 10%Z;
          ECall (VRef 5%positive) (VRef 7%positive); EStore 11%positive 1 0 22%Z].
Proof. reflexivity. Qed.

Example gram_little_fuel :
  gram 0%Z dot 2 data1 data2 sample_state = OutOfFuel.
Proof. reflexivity. Qed.

Lemma dot_sym x y : dot x y = dot y x.
Proof.
  unfold dot. f_equal. revert y. induction x as [|a x IH]; intros [|b y]; try done.
  simpl. by rewrite IH, Z.mul_comm.
Qed.

Lemma gram_entries_witness :
  ∃ g s',
    gram 0%Z dot 4 X_train data sample_state = Ok g s' ∧
    shape g s' = Ok (3, 2) s' ∧
    ∀ i j a b, X_train_rows !! i = Some a → data_rows !! j = Some b →
      getitem2 g i j s' = Ok (dot a b) s'.
Proof.
  apply (gram_entries 0%Z dot 4 X_train data sample_state X_train_rows data_rows);
    [reflexivity | reflexivity | simpl; lia | simpl; lia].
Defined.

Lemma gram_symmetric_witness :
  (∃ g s',
     gram 0%Z dot 4 X_train X_train sample_state = Ok g s' ∧
     shape g s' = Ok (3, 3) s' ∧
     ∀ i j, i < 3 → j < 3 →
       ∃ v, getitem2 g i j s' = Ok v s' ∧ getitem2 g j i s' = Ok v s') ∧
  (∃ g s' n m,
     gram 0%Z dot 4 X_train data sample_state = Ok g s' ∧
     shape g s' = Ok (n, m) s' ∧ n = 3 ∧ m = 2 ∧ n ≠ m).
Proof.
  destruct (gram_symmetric 0%Z dot 4 X_train sample_state X_train_rows)
    as [Hsquare Hrect]; [exact dot_sym | reflexivity | simpl; lia |].
  split; [exact Hsquare|].
  apply (Hrect data data_rows); [reflexivity | simpl; lia | simpl; lia].
Defined.

Lemma gram_generic_witness :
  ∃ g s' arr,
    gram 0%Z first_minus_last 3 data data2 sample_state = Ok g s' ∧
    heap s' !! g = Some (ONdarray arr) ∧
    nrows arr = 2 ∧ ncols arr = 1 ∧
    tolist arr = spec_gram first_minus_last data_rows data2_rows.
Proof.
  apply (gram_generic 0%Z first_minus_last 3 data data2 sample_state data_rows data2_rows);
    [reflexivity | reflexivity | simpl; lia | simpl; lia].
Defined.

Lemma gram_total_witness :
  (∃ g s', gram 0%Z dot 1 empty empty sample_state = Ok g s' ∧
           shape g s' = Ok (0, 0) s') ∧
  (∃ g s', gram 0%Z dot 4 X_train empty sample_state = Ok g s' ∧
           shape g s' = Ok (3, 0) s') ∧
  (gram 0%Z dot 3 (VRef 1%positive) data2 sample_state = Raise TypeError ∧
   TypeError = TypeError ∧
   (seq_contents (heap sample_state) (VRef 1%positive) = None ∨
    seq_contents (heap sample_state) data2 = None)).
Proof.
  split; [|split].
  - apply (proj1 (gram_total 0%Z dot empty empty sample_state) 1 [] []);
      [reflexivity | reflexivity | simpl; lia | simpl; lia].
  - apply (proj1 (gram_total 0%Z dot X_train empty sample_state) 4 X_train_rows []);
      [reflexivity | reflexivity | simpl; lia | simpl; lia].
  - split; [reflexivity|].
    apply (proj2 (gram_total 0%Z dot (VRef 1%positive) data2 sample_state) 3 TypeError).
    reflexivity.
Defined.

Lemma gram_kernel_calls_witness :
  ∃ g s',
    gram 0%Z dot 4 X_train data sample_state = Ok g s' ∧
    length (kernel_calls (trace_since sample_state s')) = 3 * 2 ∧
    ∀ i j x1 x2,
      [VRow 10%positive 0; VRow 10%positive 1; VRow 10%positive 2] !! i = Some x1 →
      [VRef 1%positive; VRef 2%positive] !! j = Some x2 →
      kernel_calls (trace_since sample_state s') !! (i * 2 + j) = Some (x1, x2).
Proof.
  apply (gram_kernel_calls 0%Z dot 4 X_train data sample_state X_train_rows data_rows);
    [reflexivity | reflexivity | reflexivity | reflexivity | simpl; lia | simpl; lia].
Defined.

Lemma gram_row_major_witness :
  ∃ g s',
    gram 0%Z dot 4 X_train data sample_state = Ok g s' ∧
    (∀ i j x1 x2 a b,
       [VRow 10%positive 0; VRow 10%positive 1; VRow 10%positive 2] !! i = Some x1 →
       [VRef 1%positive; VRef 2%positive] !! j = Some x2 →
       X_train_rows !! i = Some a → data_rows !! j = Some b →
       trace_since sample_state s' !! (2 * (i * 2 + j)) = Some (ECall x1 x2) ∧
       trace_since sample_state s' !! (2 * (i * 2 + j) + 1)
         = Some (EStore g i j (dot a b))) ∧
    (∀ i j i' j', j < 2 → j' < 2 →
       i < i' ∨ (i = i' ∧ j < j') →
       2 * (i * 2 + j) < 2 * (i' * 2 + j')).
Proof.
  apply (gram_row_major 0%Z dot 4 X_train data sample_state X_train_rows data_rows);
    [reflexivity | reflexivity | reflexivity | reflexivity | simpl; lia | simpl; lia].
Defined.

Lemma gram_deterministic_witness :
  ∃ g1 s1' g2 s2' arr,
    gram 0%Z dot 3 data data2 sample_state = Ok g1 s1' ∧
    gram 0%Z dot 5 data1 data2 later_state = Ok g2 s2' ∧
    heap s1' !! g1 = Some (ONdarray arr) ∧
    heap s2' !! g2 = Some (ONdarray arr).
Proof.
  apply (gram_deterministic 0%Z dot 3 5 data data2 data1 data2
           sample_state later_state data_rows data2_rows);
    [reflexivity | reflexivity | reflexivity | reflexivity
     | simpl; lia | simpl; lia | simpl; lia | simpl; lia].
Defined.

Lemma gram_frame_witness :
  ∃ g s',
    gram 0%Z dot 4 X_train data sample_state = Ok g s' ∧
    heap sample_state !! g = None ∧
    (∀ l, l ≠ g → heap s' !! l = heap sample_state !! l) ∧
    seq_items (heap s') X_train = seq_items (heap sample_state) X_train ∧
    seq_items (heap s') data = seq_items (heap sample_state) data ∧
    seq_contents (heap s') X_train = Some X_train_rows ∧
    seq_contents (heap s') data = Some data_rows ∧
    Forall (λ l, l = g) (stored_arrays (trace_since sample_state s')).
Proof.
  apply (gram_frame 0%Z dot 4 X_train data sample_state X_train_rows data_rows);
    [reflexivity | reflexivity | simpl; lia | simpl; lia].
Defined.

Lemma gram_placeholder_witness :
  (∀ x1 x2 : list Z, kernel 0%Z x1 x2 = 0%Z) ∧
  (∃ g s',
     gram 0%Z (kernel 0%Z) 4 data X_train sample_state = Ok g s' ∧
     heap s' !! g = Some (ONdarray (zeros 0%Z 2 3)) ∧
     ∀ i j, i < 2 → j < 3 → getitem2 g i j s' = Ok 0%Z s') ∧
  (∃ gram_train s1 gram_test s2,
     gram 0%Z (kernel 0%Z) 4 X_train X_train sample_state = Ok gram_train s1 ∧
     gram 0%Z (kernel 0%Z) 4 data X_train s1 = Ok gram_test s2 ∧
     heap s2 !! gram_train = Some (ONdarray (zeros 0%Z 3 3)) ∧
     heap s2 !! gram_test = Some (ONdarray (zeros 0%Z 2 3))).
Proof.
  apply (gram_placeholder 0%Z 4 data X_train sample_state data_rows X_train_rows);
    [reflexivity | reflexivity | simpl; lia | simpl; lia].
Defined.

End GramSpec.

(** * Properties of the Ising translation *)

Module ClusteringSpec.
Import Numpy Clustering NumpySpec.

Section proofs.

Context {F : Type}.
Variable zero : F.
Variable norm_diff : list F → list F → F.

Implicit Types (w : ndarray F) (data : list (list F)).

Lemma elem_of_range lo hi j : j ∈ range lo hi ↔ lo ≤ j < hi.
Proof. unfold range. rewrite elem_of_seq. lia. Qed.

Lemma elem_of_product_range n i j :
  (i, j) ∈ product_range n ↔ i < n ∧ j < n.
Proof.
  unfold product_range. rewrite list_elem_of_bind. split.
  - intros (i' & (j' & Hp & Hj)%list_elem_of_bind & Hi).
    apply list_elem_of_singleton in Hp. simplify_eq.
    apply elem_of_range in Hi, Hj. lia.
  - intros [Hi Hj]. exists i. split; [|apply elem_of_range; lia].
    apply list_elem_of_bind. exists j. split; [|apply elem_of_range; lia].
    by apply list_elem_of_singleton.
Qed.

(** ** The distance matrix *)

Lemma compute_w_fold data (n : nat) (ps : list (nat * nat)) w0 :
  wf w0 → nrows w0 = n → ncols w0 = n → length data = n →
  Forall (λ p, p.1 < n ∧ p.2 < n) ps →
  ∃ w,
    foldl (λ acc '(i, j),
             w ← acc;
             xi ← data !! i;
             xj ← data !! j;
             setitem w i j (norm_diff xi xj))
          (Some w0) ps = Some w ∧
    wf w ∧ nrows w = n ∧ ncols w = n ∧
    ∀ i j, i < n → j < n →
      getitem w i j
      = if decide ((i, j) ∈ ps)
        then xi ← data !! i; xj ← data !! j; Some (norm_diff xi xj)
        else getitem w0 i j.
Proof.
  intros Hwf Hr Hc Hdata Hps. induction ps as [|[i0 j0] ps IH] using rev_ind.
  - exists w0. split_and!; [done..|]. intros i j _ _.
    rewrite decide_False; [done|]. apply not_elem_of_nil.
  - apply Forall_app in Hps as [Hps [[Hi0 Hj0] _]%Forall_cons]. simpl in Hi0, Hj0.
    destruct (IH Hps) as (w & Hfold & Hwfw & Hrw & Hcw & Hget).
    rewrite foldl_app, Hfold. simpl.
    destruct (lookup_lt_is_Some_2 data i0 ltac:(lia)) as [xi Hxi].
    destruct (lookup_lt_is_Some_2 data j0 ltac:(lia)) as [xj Hxj].
    rewrite Hxi, Hxj. simpl.
    pose proof (setitem_Some w i0 j0 (norm_diff xi xj) ltac:(lia) ltac:(lia)) as Hset.
    destruct (setitem_shape _ _ _ _ _ Hset) as (Hr' & Hc' & Hwf').
    eexists. split; [exact Hset|]. split; [by apply Hwf'|].
    split; [by rewrite Hr'|]. split; [by rewrite Hc'|].
    intros i j Hi Hj.
    rewrite (getitem_setitem _ _ _ _ _ _ _ Hwfw Hset) by lia.
    rewrite Hget by done. case_decide as Heq.
    + destruct Heq as [-> ->]. rewrite decide_True; [by rewrite Hxi, Hxj|].
      apply elem_of_app. right. by apply list_elem_of_singleton.
    + destruct (decide ((i, j) ∈ ps)) as [Hin|Hnin].
      * rewrite decide_True; [done|]. apply elem_of_app. by left.
      * rewrite decide_False; [done|]. intros [?|Hp%list_elem_of_singleton]%elem_of_app;
          [done|]. simplify_eq. by apply Heq.
Qed.

Lemma compute_w_spec data n :
  length data = n →
  ∃ w,
    compute_w zero norm_diff n data = Some w ∧
    wf w ∧ nrows w = n ∧ ncols w = n ∧
    ∀ i j xi xj, data !! i = Some xi → data !! j = Some xj →
      getitem w i j = Some (norm_diff xi xj).
Proof.
  intros Hdata.
  destruct (compute_w_fold data n (product_range n) (zeros zero n n))
    as (w & Hfold & Hwf & Hr & Hc & Hget); try done.
  - apply zeros_wf.
  - apply Forall_forall. intros [i j] Hp. by apply elem_of_product_range.
  - exists w. split_and!; [done..|]. intros i j xi xj Hxi Hxj.
    pose proof (lookup_lt_Some _ _ _ Hxi). pose proof (lookup_lt_Some _ _ _ Hxj).
    rewrite Hget by lia. rewrite decide_True by (apply elem_of_product_range; lia).
    by rewrite Hxi, Hxj.
Qed.

(** ** The fields and the couplings *)

Lemma ising_row w (n i : nat) (js : list nat) (J : gmap (nat * nat) F) :
  wf w → nrows w = n → ncols w = n → i < n → Forall (λ j, j < n) js →
  ∃ J',
    foldl (λ accJ j,
             J ← accJ;
             v ← getitem w i j;
             Some (<[(i, j) := v]> J))
          (Some J) js = Some J' ∧
    ∀ a b, J' !! (a, b) = if decide (a = i ∧ b ∈ js) then getitem w i b else J !! (a, b).
Proof.
  intros Hwf Hr Hc Hi Hjs. induction js as [|j0 js IH] using rev_ind.
  - exists J. split; [done|]. intros a b. rewrite decide_False; [done|].
    intros [_ []%not_elem_of_nil].
  - apply Forall_app in Hjs as [Hjs [Hj0 _]%Forall_cons].
    destruct (IH Hjs) as (J' & Hfold & HJ').
    rewrite foldl_app, Hfold. simpl.
    destruct (getitem_is_Some w i j0 Hwf ltac:(lia) ltac:(lia)) as [v Hv].
    rewrite Hv. simpl. eexists. split; [done|]. intros a b.
    destruct (decide ((a, b) = (i, j0))) as [Heq|Hne].
    + simplify_eq. rewrite lookup_insert_eq, decide_True; [done|].
      split; [done|]. apply elem_of_app. right. by apply list_elem_of_singleton.
    + rewrite lookup_insert_ne by done. rewrite HJ'.
      destruct (decide (a = i ∧ b ∈ js)) as [[-> Hin]|Hnin].
      * rewrite decide_True; [done|]. split; [done|]. apply elem_of_app. by left.
      * rewrite decide_False; [done|].
        intros [-> [?|Hb%list_elem_of_singleton]%elem_of_app].
        -- by apply Hnin.
        -- apply Hne. by rewrite Hb.
Qed.

Lemma ising_fold w (n : nat) (rows : list nat) :
  wf w → nrows w = n → ncols w = n → Forall (λ i, i < n) rows →
  ∃ (h : gmap nat F) (J : gmap (nat * nat) F),
    foldl (λ acc i,
             '(h, J) ← acc;
             let h' := <[i := zero]> h in
             J' ← foldl (λ accJ j,
                           J ← accJ;
                           v ← getitem w i j;
                           Some (<[(i, j) := v]> J))
                        (Some J) (range (i + 1) n);
             Some (h', J'))
          (Some (∅, ∅)) rows = Some (h, J) ∧
    (∀ i, h !! i = if decide (i ∈ rows) then Some zero else None) ∧
    (∀ i j, J !! (i, j)
            = if decide (i ∈ rows ∧ i < j ∧ j < n) then getitem w i j else None).
Proof.
  intros Hwf Hr Hc Hrows. induction rows as [|i0 rows IH] using rev_ind.
  - exists ∅, ∅. split; [done|]. split.
    + intros i. rewrite decide_False; [done|]. apply not_elem_of_nil.
    + intros i j. rewrite decide_False; [done|]. intros [[]%not_elem_of_nil _].
  - apply Forall_app in Hrows as [Hrows [Hi0 _]%Forall_cons].
    destruct (IH Hrows) as (h & J & Hfold & Hh & HJ).
    rewrite foldl_app, Hfold. simpl.
    destruct (ising_row w n i0 (range (i0 + 1) n) J Hwf Hr Hc Hi0) as (J' & Hrow & HJ').
    { apply Forall_forall. intros j Hj%elem_of_range. lia. }
    rewrite Hrow. simpl. eexists _, _. split; [done|]. split.
    + intros i. destruct (decide (i = i0)) as [->|Hne].
      * rewrite lookup_insert_eq, decide_True; [done|].
        apply elem_of_app. right. by apply list_elem_of_singleton.
      * rewrite lookup_insert_ne by done. rewrite Hh.
        destruct (decide (i ∈ rows)) as [Hin|Hnin].
        -- rewrite decide_True; [done|]. apply elem_of_app. by left.
        -- rewrite decide_False; [done|].
           intros [?|?%list_elem_of_singleton]%elem_of_app; done.
    + intros i j. rewrite HJ', HJ.
      destruct (decide (i = i0 ∧ j ∈ range (i0 + 1) n)) as [[-> Hj]|Hnot].
      * apply elem_of_range in Hj. rewrite decide_True; [done|].
        split; [|lia]. apply elem_of_app. right. by apply list_elem_of_singleton.
      * destruct (decide (i ∈ rows ∧ i < j ∧ j < n)) as [[Hin Hlt]|Hnin].
        -- rewrite decide_True; [done|]. split; [|done]. apply elem_of_app. by left.
        -- rewrite decide_False; [done|].
           intros [[?|Hi%list_elem_of_singleton]%elem_of_app Hlt]; [by apply Hnin|].
           apply Hnot. split; [done|]. apply elem_of_range. lia.
Qed.

Lemma ising_spec w n :
  wf w → nrows w = n → ncols w = n →
  ∃ h J,
    ising zero n w = Some (h, J) ∧
    (∀ i, h !! i = if decide (i < n) then Some zero else None) ∧
    (∀ i j, J !! (i, j) = if decide (i < j ∧ j < n) then getitem w i j else None).
Proof.
  intros Hwf Hr Hc.
  destruct (ising_fold w n (range 0 n) Hwf Hr Hc) as (h & J & Hfold & Hh & HJ).
  { apply Forall_forall. intros i Hi%elem_of_range. lia. }
  exists h, J. split; [done|]. split.
  - intros i. rewrite Hh. destruct (decide (i < n)).
    + rewrite decide_True; [done|]. apply elem_of_range. lia.
    + rewrite decide_False; [done|]. intros ?%elem_of_range. lia.
  - intros i j. rewrite HJ. destruct (decide (i < j ∧ j < n)).
    + rewrite decide_True; [done|]. split; [|done]. apply elem_of_range. lia.
    + rewrite decide_False; [done|]. by intros [_ ?].
Qed.

(** C10: the model handed to the annealer has the field [zero] on each of
    the [n_instances] variables and on nothing else, and a coupling on the
    pairs [i < j] only, which is [w[i, j]], the norm of the difference of
    the rows [i] and [j] of the data. *)
Theorem ising_model class_1 class_2 :
  length class_1 = n_instances / 2 → length class_2 = n_instances / 2 →
  ∃ w m,
    compute_w zero norm_diff n_instances (concatenate class_1 class_2) = Some w ∧
    model zero n_instances w = Some m ∧
    (∀ i, i < n_instances → linear m !! i = Some zero) ∧
    (∀ i, n_instances ≤ i → linear m !! i = None) ∧
    (∀ i j, i < j → j < n_instances →
       ∃ xi xj,
         concatenate class_1 class_2 !! i = Some xi ∧
         concatenate class_1 class_2 !! j = Some xj ∧
         getitem w i j = Some (norm_diff xi xj) ∧
         quadratic m !! (i, j) = Some (norm_diff xi xj)) ∧
    (∀ i j, j ≤ i ∨ n_instances ≤ j → quadratic m !! (i, j) = None) ∧
    offset m = zero ∧ vtype m = SPIN.
Proof.
  intros H1 H2.
  assert (length (concatenate class_1 class_2) = n_instances) as Hdata.
  { unfold concatenate. rewrite length_app, H1, H2. done. }
  destruct (compute_w_spec _ _ Hdata) as (w & Hw & Hwf & Hr & Hc & Hget).
  destruct (ising_spec w n_instances Hwf Hr Hc) as (h & J & Hising & Hh & HJ).
  exists w, (BQM h J zero SPIN). split; [done|].
  split; [unfold model; by rewrite Hising|]. simpl. split_and!; [| | | |done..].
  - intros i Hi. by rewrite Hh, decide_True.
  - intros i Hi. rewrite Hh, decide_False; [done|lia].
  - intros i j Hij Hj.
    destruct (lookup_lt_is_Some_2 (concatenate class_1 class_2) i ltac:(lia)) as [xi Hxi].
    destruct (lookup_lt_is_Some_2 (concatenate class_1 class_2) j ltac:(lia)) as [xj Hxj].
    exists xi, xj. split_and!; [done..| |].
    + by apply Hget.
    + rewrite HJ, decide_True by done. by apply Hget.
  - intros i j Hij. rewrite HJ, decide_False; [done|lia].
Qed.

End proofs.

(** ** The statements on the sample inputs *)

Import Samples.

Example w_sample :
  compute_w 0%Z taxicab n_instances (concatenate class_1 class_2)
  = Some (Ndarray 4 4 [0; 2; 7; 10;  2; 0; 7; 8;  7; 7; 0; 3;  10; 8; 3; 0]%Z).
Proof. reflexivity. Qed.

Example model_sample :
  (w ← compute_w 0%Z taxicab n_instances (concatenate class_1 class_2);
   m ← model 0%Z n_instances w;
   Some (linear m !! 0, linear m !! 3, linear m !! 4,
         quadratic m !! (0, 1), quadratic m !! (1, 0), quadratic m !! (1, 1),
         quadratic m !! (2, 3), quadratic m !! (3, 4), size (quadratic m)))
  = Some (Some 0%Z, Some 0%Z, None, Some 2%Z, None, None, Some 3%Z, None, 6).
Proof. reflexivity. Qed.

(** With an odd number of instances the data has one row less than
    [n_instances], and filling [w] stops on an IndexError. *)
Example w_odd :
  compute_w 0%Z taxicab 5 (concatenate class_1 class_2) = None.
Proof. reflexivity. Qed.

Lemma ising_model_witness :
  ∃ w m,
    compute_w 0%Z taxicab n_instances (concatenate class_1 class_2) = Some w ∧
    model 0%Z n_instances w = Some m ∧
    (∀ i, i < n_instances → linear m !! i = Some 0%Z) ∧
    (∀ i, n_instances ≤ i → linear m !! i = None) ∧
    (∀ i j, i < j → j < n_instances →
       ∃ xi xj,
         concatenate class_1 class_2 !! i = Some xi ∧
         concatenate class_1 class_2 !! j = Some xj ∧
         getitem w i j = Some (taxicab xi xj) ∧
         quadratic m !! (i, j) = Some (taxicab xi xj)) ∧
    (∀ i j, j ≤ i ∨ n_instances ≤ j → quadratic m !! (i, j) = None) ∧
    offset m = 0%Z ∧ vtype m = SPIN.
Proof.
  apply (ising_model 0%Z taxicab class_1 class_2); reflexivity.
Defined.

End ClusteringSpec.

(** * More on [gram]: transposition, repeated calls, batches *)

Module GramMore.
Import Numpy Gram NumpySpec GramSpec.

Section proofs.

Context {F : Type}.
Variable zero : F.

(** With a symmetric kernel, swapping the two arguments transposes the
    array: [gram(B, A)[j, i] = gram(A, B)[i, j]]. *)
Theorem gram_transpose k fuel A B (s : @state F) As Bs :
  (∀ x y, k x y = k y x) →
  seq_contents (heap s) A = Some As → seq_contents (heap s) B = Some Bs →
  length As < fuel → length Bs < fuel →
  ∃ g1 s1 g2 s2,
    gram zero k fuel A B s = Ok g1 s1 ∧
    gram zero k fuel B A s = Ok g2 s2 ∧
    shape g1 s1 = Ok (length As, length Bs) s1 ∧
    shape g2 s2 = Ok (length Bs, length As) s2 ∧
    ∀ i j, i < length As → j < length Bs →
      ∃ v, getitem2 g1 i j s1 = Ok v s1 ∧ getitem2 g2 j i s2 = Ok v s2.
Proof.
  intros Hsym HA HB HfA HfB.
  destruct (gram_ok zero k fuel A B s As Bs HA HB HfA HfB)
    as (Ai & Bi & _ & _ & _ & _ & Hrun1).
  destruct (gram_ok zero k fuel B A s Bs As HB HA HfB HfA)
    as (Bi' & Ai' & _ & _ & _ & _ & Hrun2).
  eexists _, _, _, _. split; [exact Hrun1|]. split; [exact Hrun2|].
  split; [apply gram_post_shape|]. split; [apply gram_post_shape|].
  intros i j Hi Hj.
  destruct (lookup_lt_is_Some_2 As i Hi) as [a Ha].
  destruct (lookup_lt_is_Some_2 Bs j Hj) as [b Hb].
  exists (k a b). split.
  - by apply gram_post_getitem.
  - rewrite (Hsym a b). by apply gram_post_getitem.
Qed.


(** Rows can be computed in batches: for a sequence whose items are those
    of [A1] followed by those of [A2], the rows of the array are the rows
    of [gram(A1, B)] followed by the rows of [gram(A2, B)]. *)
Theorem gram_batches k fuel A A1 A2 B (s : @state F) As1 As2 Bs :
  seq_contents (heap s) A = Some (As1 ++ As2) →
  seq_contents (heap s) A1 = Some As1 → seq_contents (heap s) A2 = Some As2 →
  seq_contents (heap s) B = Some Bs →
  length (As1 ++ As2) < fuel → length Bs < fuel →
  ∃ r r1 r2,
    result_array (gram zero k fuel A B s) = Some r ∧
    result_array (gram zero k fuel A1 B s) = Some r1 ∧
    result_array (gram zero k fuel A2 B s) = Some r2 ∧
    tolist r = tolist r1 ++ tolist r2.
Proof.
  intros HA HA1 HA2 HB HfA HfB. rewrite length_app in HfA.
  assert (∀ X Xs, seq_contents (heap s) X = Some Xs → length Xs < fuel →
    result_array (gram zero k fuel X B s)
    = Some (Ndarray (length Xs) (length Bs) (concat (spec_gram k Xs Bs)))) as Hres.
  { intros X Xs HX HfX.
    destruct (gram_ok zero k fuel X B s Xs Bs HX HB HfX HfB)
      as (Xi & Bi & _ & _ & _ & _ & Hrun).
    rewrite Hrun. unfold result_array. by rewrite gram_post_array. }
  eexists _, _, _.
  split; [apply (Hres A (As1 ++ As2) HA); rewrite length_app; lia|].
  split; [apply (Hres A1 As1 HA1); lia|].
  split; [apply (Hres A2 As2 HA2); lia|].
  assert (∀ Xs, tolist (Ndarray (length Xs) (length Bs) (concat (spec_gram k Xs Bs)))
                 = spec_gram k Xs Bs) as Hrows.
  { intros Xs. rewrite <- (spec_gram_length k Xs Bs) at 1.
    apply tolist_concat_rows, spec_gram_rows. }
  rewrite !Hrows. unfold spec_gram. by rewrite fmap_app.
Qed.

End proofs.

Import Samples Batches.

Lemma gram_transpose_witness :
  ∃ g1 s1 g2 s2,
    gram 0%Z dot 4 X_train data sample_state = Ok g1 s1 ∧
    gram 0%Z dot 4 data X_train sample_state = Ok g2 s2 ∧
    shape g1 s1 = Ok (3, 2) s1 ∧
    shape g2 s2 = Ok (2, 3) s2 ∧
    ∀ i j, i < 3 → j < 2 →
      ∃ v, getitem2 g1 i j s1 = Ok v s1 ∧ getitem2 g2 j i s2 = Ok v s2.
Proof.
  apply (gram_transpose 0%Z dot 4 X_train data sample_state X_train_rows data_rows);
    [exact dot_sym | reflexivity | reflexivity | simpl; lia | simpl; lia].
Defined.


Lemma gram_batches_witness :
  ∃ r r1 r2,
    result_array (gram 0%Z dot 4 whole other batch_state) = Some r ∧
    result_array (gram 0%Z dot 4 head_part other batch_state) = Some r1 ∧
    result_array (gram 0%Z dot 4 tail_part other batch_state) = Some r2 ∧
    tolist r = tolist r1 ++ tolist r2.
Proof.
  apply (gram_batches 0%Z dot 4 whole head_part tail_part other batch_state
           [[1; 2]]%Z [[3; 4]; [5; 6]]%Z [[1; 2]; [5; 6]]%Z);
    [reflexivity | reflexivity | reflexivity | reflexivity | simpl; lia | simpl; lia].
Defined.

End GramMore.

(** * Properties of the variational circuit *)

Module VariationalSpec.
Import Numpy Variational NumpySpec.

Section proofs.

Context {F : Type}.

Implicit Types (q : list (@op F)) (theta : list F) (thetas : list (list F)).

Lemma queue_bind {T U} (m : @Q F T) (f : T → @Q F U) q v q' :
  m q = inr (v, q') → (m ≫= f) q = f v q'.
Proof. intros Hm. unfold mbind, Q_bind, bind. by rewrite Hm. Qed.


Lemma subscript_Some xs i v q :
  xs !! i = Some v → subscript (Some xs) i q = inr (v, q).
Proof. intros Hv. unfold subscript. by rewrite Hv. Qed.


(** ** One layer *)

Lemma spec_layer_is_Some theta : is_Some (spec_layer theta) ↔ 6 ≤ length theta.
Proof.
  unfold spec_layer. split.
  - intros [l Hl].
    destruct (theta !! 5) as [t5|] eqn:H5.
    + apply lookup_lt_Some in H5. lia.
    + destruct (theta !! 0), (theta !! 1), (theta !! 2), (theta !! 3), (theta !! 4);
        done.
  - intros Hlen.
    destruct (lookup_lt_is_Some_2 theta 0 ltac:(lia)) as [t0 ->].
    destruct (lookup_lt_is_Some_2 theta 1 ltac:(lia)) as [t1 ->].
    destruct (lookup_lt_is_Some_2 theta 2 ltac:(lia)) as [t2 ->].
    destruct (lookup_lt_is_Some_2 theta 3 ltac:(lia)) as [t3 ->].
    destruct (lookup_lt_is_Some_2 theta 4 ltac:(lia)) as [t4 ->].
    destruct (lookup_lt_is_Some_2 theta 5 ltac:(lia)) as [t5 ->].
    by eexists.
Qed.



Lemma U_run theta l q : spec_layer theta = Some l → U theta q = inr (tt, q ++ l).
Proof.
  unfold spec_layer, U.
  destruct (theta !! 0) as [t0|] eqn:H0; [|done].
  destruct (theta !! 1) as [t1|] eqn:H1; [|done].
  destruct (theta !! 2) as [t2|] eqn:H2; [|done].
  destruct (theta !! 3) as [t3|] eqn:H3; [|done].
  destruct (theta !! 4) as [t4|] eqn:H4; [|done].
  destruct (theta !! 5) as [t5|] eqn:H5; [|done].
  simpl. intros [= <-].
  do 3 (erewrite queue_bind by (by apply subscript_Some)).
  erewrite queue_bind by reflexivity.
  do 3 (erewrite queue_bind by (by apply subscript_Some)).
  erewrite queue_bind by reflexivity.
  unfold apply_op. by rewrite <- !app_assoc.
Qed.


(** ** The layers one after the other *)

Lemma for_each_run thetas layers q :
  mapM spec_layer thetas = Some layers →
  for_each thetas U q = inr (tt, q ++ concat layers).
Proof.
  intros Hall%mapM_Some_1. revert q.
  induction Hall as [|theta l thetas layers Hl _ IH]; intros q; simpl.
  - by rewrite app_nil_r.
  - erewrite queue_bind by (by apply U_run). rewrite IH. by rewrite <- app_assoc.
Qed.


Lemma layers_all thetas :
  Forall (λ theta, 6 ≤ length theta) thetas → is_Some (mapM spec_layer thetas).
Proof.
  intros Hall. apply mapM_is_Some_2. eapply Forall_impl; [exact Hall|].
  intros theta Hlen. by apply spec_layer_is_Some.
Qed.





(** ** The whole circuit *)

Lemma qclassifier_run thetas xs x0 x1 layers q :
  xs !! 0 = Some x0 → xs !! 1 = Some x1 →
  mapM spec_layer thetas = Some layers →
  qclassifier thetas (Some xs) q
  = inr (PauliZ 0, q ++ RX x0 0 :: RX x1 1 :: concat layers).
Proof.
  intros H0 H1 Hl. unfold qclassifier, S_x.
  erewrite queue_bind; last first.
  { erewrite queue_bind by (by apply subscript_Some).
    erewrite queue_bind by reflexivity.
    erewrite queue_bind by (by apply subscript_Some). reflexivity. }
  erewrite queue_bind by (by apply for_each_run).
  unfold ret. by rewrite <- !app_assoc.
Qed.

Lemma qclassifier_ok thetas xs q :
  2 ≤ length xs → Forall (λ theta, 6 ≤ length theta) thetas →
  ∃ x0 x1 layers,
    xs !! 0 = Some x0 ∧ xs !! 1 = Some x1 ∧
    mapM spec_layer thetas = Some layers ∧
    qclassifier thetas (Some xs) q
    = inr (PauliZ 0, q ++ RX x0 0 :: RX x1 1 :: concat layers).
Proof.
  intros Hxs Hthetas.
  destruct (lookup_lt_is_Some_2 xs 0 ltac:(lia)) as [x0 H0].
  destruct (lookup_lt_is_Some_2 xs 1 ltac:(lia)) as [x1 H1].
  destruct (layers_all thetas Hthetas) as [layers Hl].
  exists x0, x1, layers. split_and!; [done..|]. by apply qclassifier_run.
Qed.






(** ** The grid *)

Variable device : list (@op F) → observable → F.

Lemma comprehension_Forall2 {A B} (f : A → exn + B) (l : list A) :
  (∀ a, a ∈ l → ∃ b, f a = inr b) →
  ∃ bs, comprehension f l = inr bs ∧ Forall2 (λ a b, f a = inr b) l bs.
Proof.
  induction l as [|a l IH]; intros Hall.
  - exists []. by split.
  - destruct (Hall a) as [b Hb]; [by left|].
    destruct IH as (bs & Hbs & Hall2); [intros a' Ha'; apply Hall; by right|].
    exists (b :: bs). simpl. rewrite Hb, Hbs. split; [done|]. by constructor.
Qed.

Lemma meshgrid_xx (xs ys : list F) i j x y :
  ys !! i = Some y → xs !! j = Some x →
  buf (meshgrid xs ys).1 !! (i * length xs + j) = Some x.
Proof.
  intros Hy Hx. simpl.
  apply (concat_lookup_rows (length xs) _ i j xs x); [|by apply lookup_replicate_2, (lookup_lt_Some ys i y)|done].
  apply Forall_forall. by intros r [-> _]%elem_of_replicate.
Qed.

Lemma meshgrid_yy (xs ys : list F) i j x y :
  ys !! i = Some y → xs !! j = Some x →
  buf (meshgrid xs ys).2 !! (i * length xs + j) = Some y.
Proof.
  intros Hy Hx. simpl.
  apply (concat_lookup_rows (length xs) _ i j (replicate (length xs) y) y).
  - apply Forall_forall. intros r (y' & -> & _)%list_elem_of_fmap.
    by rewrite length_replicate.
  - by rewrite list_lookup_fmap, Hy.
  - by apply lookup_replicate_2, (lookup_lt_Some xs j x).
Qed.

Lemma meshgrid_sizes (xs ys : list F) :
  length (buf (meshgrid xs ys).1) = length ys * length xs ∧
  length (buf (meshgrid xs ys).2) = length ys * length xs.
Proof.
  simpl. split.
  - rewrite (length_concat_rows (length xs)), length_replicate; [done|].
    apply Forall_forall. by intros r [-> _]%elem_of_replicate.
  - rewrite (length_concat_rows (length xs)), length_fmap; [done|].
    apply Forall_forall. intros r (y' & -> & _)%list_elem_of_fmap.
    by rewrite length_replicate.
Qed.

Lemma X_grid_points (xs ys : list F) p :
  p ∈ X_grid xs ys → length p = 2.
Proof.
  unfold X_grid. simpl. intros Hp.
  apply list_elem_of_lookup in Hp as [n Hn].
  apply lookup_zip_with_Some in Hn as (x & y & -> & _ & _). done.
Qed.

(** The array [Z] handed to the contour plot has the shape of [xx] and
    [yy], and its cell [(i, j)] is the classifier's output at the point
    [(xx[i, j], yy[i, j])], that is at abscissa [xs[j]] and ordinate
    [ys[i]]. *)
Theorem decision_grid_aligned thetas (xs ys : list F) :
  Forall (λ theta, 6 ≤ length theta) thetas →
  ∃ Z,
    decision_grid device thetas xs ys = inr Z ∧
    nrows Z = length ys ∧ ncols Z = length xs ∧
    ∀ i j x y, ys !! i = Some y → xs !! j = Some x →
      getitem (meshgrid xs ys).1 i j = Some x ∧
      getitem (meshgrid xs ys).2 i j = Some y ∧
      ∃ v, qnode device thetas (Some [x; y]) = inr v ∧ getitem Z i j = Some v.
Proof.
  intros Hthetas. unfold decision_grid.
  destruct (comprehension_Forall2 (λ x, qnode device thetas (Some x)) (X_grid xs ys))
    as (preds & Hpreds & Hall).
  { intros p Hp%X_grid_points.
    destruct (qclassifier_ok thetas p [] ltac:(lia) Hthetas)
      as (x0 & x1 & layers & _ & _ & _ & Hrun).
    unfold qnode. rewrite Hrun. by eexists. }
  destruct (meshgrid_sizes xs ys) as [Hlx Hly].
  assert (length preds = length ys * length xs) as Hlen.
  { rewrite <- (Forall2_length _ _ _ Hall). unfold X_grid. simpl in *.
    rewrite length_zip_with, Hlx, Hly. lia. }
  simpl. rewrite Hpreds. unfold reshape. simpl. rewrite decide_True by done.
  eexists. split; [done|]. split; [done|]. split; [done|].
  intros i j x y Hy Hx.
  pose proof (lookup_lt_Some _ _ _ Hy) as Hi.
  pose proof (lookup_lt_Some _ _ _ Hx) as Hj.
  pose proof (meshgrid_xx xs ys i j x y Hy Hx) as Hxx.
  pose proof (meshgrid_yy xs ys i j x y Hy Hx) as Hyy.
  unfold getitem. simpl in *. rewrite !decide_True by done.
  split; [done|]. split; [done|].
  assert (X_grid xs ys !! (i * length xs + j) = Some [x; y]) as Hp.
  { unfold X_grid. simpl. apply lookup_zip_with_Some. by exists x, y. }
  destruct (Forall2_lookup_l _ _ _ _ _ Hall Hp) as (v & Hv & Hq).
  by exists v.
Qed.

End proofs.

Import CircuitSamples.

(** A point and three rows of parameters; a third feature and a seventh
    parameter; a row too short; no point. *)
Example circuit_sample :
  qclassifier thetas3 (Some point) []
  = inr (PauliZ 0,
         [RX 20 0; RX 21 1;
          Rot 1 2 3 0; Rot 4 5 6 0; CNOT 1 0;
          Rot 7 8 9 0; Rot 10 11 12 0; CNOT 1 0;
          Rot 13 14 15 0; Rot 16 17 18 0; CNOT 1 0]%Z).
Proof. reflexivity. Qed.

Example circuit_short : qclassifier thetas_short (Some point) [] = inl IndexError.
Proof. reflexivity. Qed.

Example circuit_no_point : qclassifier thetas3 None [] = inl TypeError.
Proof. reflexivity. Qed.

Example grid_sample :
  decision_grid sum_rx thetas3 xs3 ys2
  = inr (Ndarray 2 3 [-3; -1; 1; -1; 1; 3]%Z).
Proof. reflexivity. Qed.


Lemma decision_grid_aligned_witness :
  ∃ Z,
    decision_grid sum_rx thetas3 xs3 ys2 = inr Z ∧
    nrows Z = 2 ∧ ncols Z = 3 ∧
    ∀ i j x y, ys2 !! i = Some y → xs3 !! j = Some x →
      getitem (meshgrid xs3 ys2).1 i j = Some x ∧
      getitem (meshgrid xs3 ys2).2 i j = Some y ∧
      ∃ v, qnode sum_rx thetas3 (Some [x; y]) = inr v ∧ getitem Z i j = Some v.
Proof.
  apply (decision_grid_aligned sum_rx thetas3 xs3 ys2).
  repeat (constructor; [simpl; lia|]). constructor.
Defined.

End VariationalSpec.

(** * More on the clustering notebook *)

Module ClusteringMore.
Import Numpy Clustering ClusteringData NumpySpec ClusteringSpec.

Section proofs.

Context {F : Type}.
Variable zero : F.
Variable norm_diff : list F → list F → F.

Implicit Types (w : ndarray F) (data : list (list F)).

(** ** The plot's labels *)

(** The labels follow the classes: [data] and [colors] have the same
    length, the rows that come from [class_1] are labelled red and those
    from [class_2] green. *)
Theorem colors_by_class (n : nat) (class_1 class_2 : list (list F)) :
  length class_1 = n / 2 → length class_2 = n / 2 →
  length (colors n) = length (concatenate class_1 class_2) ∧
  (∀ i row, class_1 !! i = Some row →
     concatenate class_1 class_2 !! i = Some row ∧ colors n !! i = Some "red") ∧
  (∀ i row, class_2 !! i = Some row →
     concatenate class_1 class_2 !! (n / 2 + i) = Some row ∧
     colors n !! (n / 2 + i) = Some "green").
Proof.
  intros H1 H2. unfold colors, concatenate. split_and!.
  - by rewrite !length_app, !length_replicate, H1, H2.
  - intros i row Hrow. pose proof (lookup_lt_Some _ _ _ Hrow) as Hi. split.
    + by apply lookup_app_l_Some.
    + rewrite lookup_app_l by (rewrite length_replicate; lia).
      apply lookup_replicate_2. lia.
  - intros i row Hrow. pose proof (lookup_lt_Some _ _ _ Hrow) as Hi. split.
    + rewrite lookup_app_r by lia. rewrite H1.
      by replace (n / 2 + i - n / 2) with i by lia.
    + rewrite lookup_app_r; rewrite length_replicate; [|lia].
      replace (n / 2 + i - n / 2) with i by lia.
      apply lookup_replicate_2. lia.
Qed.

(** ** The distance matrix for any number of instances *)

Lemma w_fold data (n : nat) (ps : list (nat * nat)) w0 :
  wf w0 → nrows w0 = n → ncols w0 = n → n ≤ length data →
  Forall (λ p, p.1 < n ∧ p.2 < n) ps →
  ∃ w,
    foldl (λ acc '(i, j),
             w ← acc;
             xi ← data !! i;
             xj ← data !! j;
             setitem w i j (norm_diff xi xj))
          (Some w0) ps = Some w ∧
    wf w ∧ nrows w = n ∧ ncols w = n ∧
    ∀ i j, i < n → j < n →
      getitem w i j
      = if decide ((i, j) ∈ ps)
        then xi ← data !! i; xj ← data !! j; Some (norm_diff xi xj)
        else getitem w0 i j.
Proof.
  intros Hwf Hr Hc Hdata Hps. induction ps as [|[i0 j0] ps IH] using rev_ind.
  - exists w0. split_and!; [done..|]. intros i j _ _.
    rewrite decide_False; [done|]. apply not_elem_of_nil.
  - apply Forall_app in Hps as [Hps [[Hi0 Hj0] _]%Forall_cons]. simpl in Hi0, Hj0.
    destruct (IH Hps) as (w & Hfold & Hwfw & Hrw & Hcw & Hget).
    rewrite foldl_app, Hfold. simpl.
    destruct (lookup_lt_is_Some_2 data i0 ltac:(lia)) as [xi Hxi].
    destruct (lookup_lt_is_Some_2 data j0 ltac:(lia)) as [xj Hxj].
    rewrite Hxi, Hxj. simpl.
    pose proof (setitem_Some w i0 j0 (norm_diff xi xj) ltac:(lia) ltac:(lia)) as Hset.
    destruct (setitem_shape _ _ _ _ _ Hset) as (Hr' & Hc' & Hwf').
    eexists. split; [exact Hset|]. split; [by apply Hwf'|].
    split; [by rewrite Hr'|]. split; [by rewrite Hc'|].
    intros i j Hi Hj.
    rewrite (getitem_setitem _ _ _ _ _ _ _ Hwfw Hset) by lia.
    rewrite Hget by done. case_decide as Heq.
    + destruct Heq as [-> ->]. rewrite decide_True; [by rewrite Hxi, Hxj|].
      apply elem_of_app. right. by apply list_elem_of_singleton.
    + destruct (decide ((i, j) ∈ ps)) as [Hin|Hnin].
      * rewrite decide_True; [done|]. apply elem_of_app. by left.
      * rewrite decide_False; [done|].
        intros [?|Hp%list_elem_of_singleton]%elem_of_app; [done|].
        simplify_eq. by apply Heq.
Qed.

Lemma w_fold_None data (ps : list (nat * nat)) :
  foldl (λ acc '(i, j),
           w ← acc;
           xi ← data !! i;
           xj ← data !! j;
           setitem w i j (norm_diff xi xj))
        None ps = None.
Proof. induction ps as [|[i j] ps IH]; [done|]. simpl. exact IH. Qed.

Lemma w_fold_fails data (ps : list (nat * nat)) acc i j :
  (i, j) ∈ ps → data !! j = None →
  foldl (λ acc '(i, j),
           w ← acc;
           xi ← data !! i;
           xj ← data !! j;
           setitem w i j (norm_diff xi xj))
        acc ps = None.
Proof.
  intros Hin Hj. revert acc.
  induction ps as [|[i' j'] ps IH]; intros acc; [by apply not_elem_of_nil in Hin|].
  apply elem_of_cons in Hin as [Heq|Hin].
  - injection Heq as <- <-. simpl. rewrite Hj.
    destruct acc as [w|]; simpl; [|apply w_fold_None].
    destruct (data !! i); simpl; apply w_fold_None.
  - simpl. by apply IH.
Qed.

Lemma needs_rows (n : nat) data :
  is_Some (compute_w zero norm_diff n data) ↔ n ≤ length data.
Proof.
  split.
  - intros [w Hw]. destruct (decide (n ≤ length data)) as [|Hlt]; [done|].
    exfalso. unfold compute_w in Hw.
    rewrite (w_fold_fails data (product_range n) _ 0 (length data)) in Hw; [done| |].
    + apply elem_of_product_range. lia.
    + by apply lookup_ge_None.
  - intros Hle.
    destruct (w_fold data n (product_range n) (zeros zero n n))
      as (w & Hfold & _); [apply zeros_wf|done..| |by exists w].
    apply Forall_forall. intros [i j] Hp. by apply elem_of_product_range.
Qed.

(** With two classes of [n_instances // 2] rows each, the distance matrix
    can be filled exactly when the number of instances is even. *)
Theorem w_needs_even (n : nat) (class_1 class_2 : list (list F)) :
  length class_1 = n / 2 → length class_2 = n / 2 →
  is_Some (compute_w zero norm_diff n (concatenate class_1 class_2))
  ↔ n `mod` 2 = 0.
Proof.
  intros H1 H2. rewrite needs_rows. unfold concatenate.
  rewrite length_app, H1, H2. pose proof (Nat.div_mod_eq n 2). lia.
Qed.

Lemma w_entries (n : nat) data :
  n ≤ length data →
  ∃ w,
    compute_w zero norm_diff n data = Some w ∧
    wf w ∧ nrows w = n ∧ ncols w = n ∧
    ∀ i j, i < n → j < n →
      ∃ xi xj, data !! i = Some xi ∧ data !! j = Some xj ∧
               getitem w i j = Some (norm_diff xi xj).
Proof.
  intros Hle.
  destruct (w_fold data n (product_range n) (zeros zero n n))
    as (w & Hfold & Hwf & Hr & Hc & Hget); [apply zeros_wf|done..| |].
  { apply Forall_forall. intros [i j] Hp. by apply elem_of_product_range. }
  exists w. split_and!; [done..|]. intros i j Hi Hj.
  destruct (lookup_lt_is_Some_2 data i ltac:(lia)) as [xi Hxi].
  destruct (lookup_lt_is_Some_2 data j ltac:(lia)) as [xj Hxj].
  exists xi, xj. split_and!; [done..|].
  rewrite Hget by done. rewrite decide_True by (by apply elem_of_product_range).
  by rewrite Hxi, Hxj.
Qed.


(** A symmetric norm gives a symmetric matrix: [w[i, j] = w[j, i]] at every
    pair of indices. *)
Theorem w_symmetric (n : nat) data w :
  (∀ x y, norm_diff x y = norm_diff y x) →
  compute_w zero norm_diff n data = Some w →
  ∀ i j, getitem w i j = getitem w j i.
Proof.
  intros Hsym Hw i j.
  assert (n ≤ length data) as Hle by (apply needs_rows; rewrite Hw; by eexists).
  destruct (w_entries n data Hle) as (w' & Hw' & Hwf & Hr & Hc & Hget).
  rewrite Hw in Hw'. injection Hw' as <-.
  destruct (decide (i < n ∧ j < n)) as [[Hi Hj]|Hout].
  - destruct (Hget i j Hi Hj) as (xi & xj & Hxi & Hxj & ->).
    destruct (Hget j i Hj Hi) as (xj' & xi' & Hxj' & Hxi' & ->).
    rewrite Hxi in Hxi'. rewrite Hxj in Hxj'.
    injection Hxi' as <-. injection Hxj' as <-. by rewrite Hsym.
  - unfold getitem. rewrite Hr, Hc. rewrite !decide_False; [done|lia..].
Qed.

(** ** The Ising model for any number of instances *)

Lemma elem_of_upper_pairs (n i j : nat) :
  (i, j) ∈ upper_pairs n ↔ i < j ∧ j < n.
Proof.
  induction n as [|n IH]; simpl.
  - rewrite elem_of_nil. lia.
  - rewrite elem_of_app, IH, list_elem_of_fmap. split.
    + intros [?|(i' & Heq & Hi'%elem_of_seq)]; [lia|]. simplify_eq. lia.
    + intros [Hij Hj]. destruct (decide (j = n)) as [->|]; [|left; lia].
      right. exists i. split; [done|]. apply elem_of_seq. lia.
Qed.

Lemma NoDup_upper_pairs (n : nat) : NoDup (upper_pairs n).
Proof.
  induction n as [|n IH]; simpl; [constructor|].
  apply NoDup_app. split; [done|]. split.
  - intros [i j] Hin%elem_of_upper_pairs (i' & Heq & _)%list_elem_of_fmap.
    simplify_eq. lia.
  - apply NoDup_fmap_2; [|apply NoDup_seq]. by intros i i' [= ->].
Qed.

Lemma length_upper_pairs (n : nat) : 2 * length (upper_pairs n) = n * (n - 1).
Proof.
  induction n as [|n IH]; [done|].
  simpl upper_pairs. rewrite length_app, length_fmap, length_seq.
  replace (S n - 1) with n by lia. destruct n as [|m]; [done|].
  replace (S m - 1) with m in IH by lia.
  rewrite Nat.mul_add_distr_l, IH. rewrite !Nat.mul_succ_l, !Nat.mul_succ_r. lia.
Qed.

(** For any [n] and any [n] by [n] array [w]: [h] holds [zero] for exactly
    the [n] variables, [J] holds [w[i, j]] for exactly the pairs
    [i < j < n], so there are [n * (n - 1) / 2] couplings. *)
Theorem ising_complete_graph (n : nat) w :
  wf w → nrows w = n → ncols w = n →
  ∃ h J,
    ising zero n w = Some (h, J) ∧
    (∀ i, h !! i = if decide (i < n) then Some zero else None) ∧
    (∀ i j, J !! (i, j) = if decide (i < j ∧ j < n) then getitem w i j else None) ∧
    (∀ i j, i < j → j < n → is_Some (J !! (i, j))) ∧
    size h = n ∧ 2 * size J = n * (n - 1).
Proof.
  intros Hwf Hr Hc.
  destruct (ising_spec zero w n Hwf Hr Hc) as (h & J & Hising & Hh & HJ).
  exists h, J. split_and!; [done..| | |].
  - intros i j Hij Hj. rewrite HJ, decide_True by done.
    apply getitem_is_Some; [done|lia..].
  - rewrite <- size_dom.
    assert (dom h = list_to_set (seq 0 n)) as ->.
    { apply set_eq. intros i. rewrite elem_of_dom, Hh, elem_of_list_to_set, elem_of_seq.
      case_decide; split.
      - intros _. lia.
      - intros _. by eexists.
      - by intros [].
      - lia. }
    rewrite size_list_to_set by apply NoDup_seq. by rewrite length_seq.
  - rewrite <- size_dom.
    assert (dom J = list_to_set (upper_pairs n)) as ->.
    { apply set_eq. intros [i j].
      rewrite elem_of_dom, HJ, elem_of_list_to_set, elem_of_upper_pairs.
      case_decide as Hd.
      - split; [done|]. intros _. apply getitem_is_Some; [done|lia..].
      - split; [by intros []|done]. }
    rewrite size_list_to_set by apply NoDup_upper_pairs.
    apply length_upper_pairs.
Qed.

(** Only the part of [w] above the diagonal is read: two arrays that agree
    there give the same fields and couplings. *)
Theorem ising_reads_upper (n : nat) w w' :
  wf w → nrows w = n → ncols w = n →
  wf w' → nrows w' = n → ncols w' = n →
  (∀ i j, i < j → j < n → getitem w i j = getitem w' i j) →
  ising zero n w = ising zero n w'.
Proof.
  intros Hwf Hr Hc Hwf' Hr' Hc' Hagree.
  destruct (ising_spec zero w n Hwf Hr Hc) as (h & J & -> & Hh & HJ).
  destruct (ising_spec zero w' n Hwf' Hr' Hc') as (h' & J' & -> & Hh' & HJ').
  f_equal. f_equal.
  - apply map_eq. intros i. by rewrite Hh, Hh'.
  - apply map_eq. intros [i j]. rewrite HJ, HJ'.
    case_decide as Hd; [|done]. destruct Hd. by apply Hagree.
Qed.

End proofs.

(** ** The statements on the sample inputs *)

Import Samples MatrixSamples.

Example w_is_w_distances :
  compute_w 0%Z taxicab 4 (concatenate class_1 class_2) = Some w_distances.
Proof. reflexivity. Qed.

Lemma taxicab_sym x y : taxicab x y = taxicab y x.
Proof.
  unfold taxicab. f_equal. revert y.
  induction x as [|a x IH]; intros [|b y]; try done.
  simpl. rewrite IH. f_equal. lia.
Qed.

Lemma colors_by_class_witness :
  length (colors 4) = length (concatenate class_1 class_2) ∧
  (∀ i row, class_1 !! i = Some row →
     concatenate class_1 class_2 !! i = Some row ∧ colors 4 !! i = Some "red") ∧
  (∀ i row, class_2 !! i = Some row →
     concatenate class_1 class_2 !! (4 / 2 + i) = Some row ∧
     colors 4 !! (4 / 2 + i) = Some "green").
Proof. apply (colors_by_class 4 class_1 class_2); reflexivity. Defined.

Lemma w_needs_even_witness :
  is_Some (compute_w 0%Z taxicab 5 (concatenate class_1 class_2)) ↔ 5 `mod` 2 = 0.
Proof. apply (w_needs_even 0%Z taxicab 5 class_1 class_2); reflexivity. Defined.

Lemma w_symmetric_witness :
  compute_w 0%Z taxicab 4 (concatenate class_1 class_2) = Some w_distances ∧
  ∀ i j, getitem w_distances i j = getitem w_distances j i.
Proof.
  split; [reflexivity|].
  apply (w_symmetric 0%Z taxicab 4 (concatenate class_1 class_2) w_distances);
    [exact taxicab_sym | reflexivity].
Defined.

Lemma ising_complete_graph_witness :
  ∃ h J,
    ising 0%Z 4 w_distances = Some (h, J) ∧
    (∀ i, h !! i = if decide (i < 4) then Some 0%Z else None) ∧
    (∀ i j, J !! (i, j)
            = if decide (i < j ∧ j < 4) then getitem w_distances i j else None) ∧
    (∀ i j, i < j → j < 4 → is_Some (J !! (i, j))) ∧
    size h = 4 ∧ 2 * size J = 4 * (4 - 1).
Proof. apply (ising_complete_graph 0%Z 4 w_distances); reflexivity. Defined.

Lemma ising_reads_upper_witness :
  ising 0%Z 4 w_distances = ising 0%Z 4 w_lopsided.
Proof.
  apply (ising_reads_upper 0%Z 4 w_distances w_lopsided); try reflexivity.
  intros i j Hij Hj.
  do 4 (destruct j as [|j]; [do 4 (destruct i as [|i]; [reflexivity || lia|]); lia|]).
  lia.
Defined.

End ClusteringMore.
